(** * NewsFeedFetcher: a shallow embedding of the mid.ru news scraper

    The script drives a headless browser to one listing page of mid.ru,
    extracts the news entries from the DOM and writes them to a JSON file.
    The repository holds three successive variants of it. The embedding
    follows the most developed one, [src/index.ts] (logger, [try]/[catch]
    around every method, exit status); of the first variant, [feed.ts], it
    has [getContent] and [close], which differ. The URL conditional and the
    body of the extraction callback are the same text in all three.

    What is embedded is the script's own logic: the URL construction, the
    callback run in the page, the splitting of tags, the JSON text, and the
    control flow of [initialize], [getContent], [saveToJSON], [close] and
    [main] with its exceptions. The browser, the file system and the logger
    are the environment: every call into the browser or the file system is
    recorded in a trace and answered by an oracle record, which says for
    each call whether it succeeds or rejects; logging never fails. *)

From Stdlib Require Import ZArith NArith List Ascii String Lia.
From Stdlib Require Import DecimalString DecimalPos DecimalZ.
From stdpp Require Import gmap list.

Set Default Proof Using "Type".
Open Scope Z_scope.

(** ** JavaScript strings

    A JavaScript string is a sequence of UTF-16 code units.  The site is in
    Russian, so code units are kept as numbers rather than as 8-bit
    characters. *)

Module JsString.

Abbreviation jsstring := (list N).

(** Literals of the source are ASCII; [js] turns a literal into code units. *)
Definition js (s : string) : jsstring :=
  List.map N_of_ascii (list_ascii_of_string s).

Definition unjs (s : jsstring) : string :=
  string_of_list_ascii (List.map ascii_of_N s).

(** [WhiteSpace] and [LineTerminator] of ECMAScript, the code units that
    [String.prototype.trim] strips. *)
Definition isWhiteSpace (c : N) : bool :=
  ((c =? 0x09) || (c =? 0x0A) || (c =? 0x0B) || (c =? 0x0C) || (c =? 0x0D)
   || (c =? 0x20) || (c =? 0xA0) || (c =? 0x1680)
   || ((0x2000 <=? c) && (c <=? 0x200A))
   || (c =? 0x2028) || (c =? 0x2029) || (c =? 0x202F) || (c =? 0x205F)
   || (c =? 0x3000) || (c =? 0xFEFF))%N.

Fixpoint trimStart (s : jsstring) : jsstring :=
  match s with
  | c :: s' => if isWhiteSpace c then trimStart s' else s
  | [] => []
  end.

Definition trimEnd (s : jsstring) : jsstring := rev (trimStart (rev s)).

(** [String.prototype.trim]. *)
Definition trim (s : jsstring) : jsstring := trimEnd (trimStart s).

(** [startsWith sep s]: [sep] occurs in [s] at position 0. *)
Fixpoint startsWith (sep s : jsstring) : bool :=
  match sep, s with
  | [], _ => true
  | _ :: _, [] => false
  | a :: sep', b :: s' => (a =? b)%N && startsWith sep' s'
  end.

(** [String.prototype.includes]. *)
Fixpoint includes (s needle : jsstring) : bool :=
  startsWith needle s ||
  match s with
  | [] => false
  | _ :: s' => includes s' needle
  end.

(** The scan of [String.prototype.split] for a non-empty separator: walk the
    string left to right; at each position where the separator starts, close
    the current piece and jump over the separator ([skip] counts the code
    units of the separator still to be jumped); otherwise the code unit joins
    the current piece ([cur], kept reversed). The last piece is always
    pushed. *)
Fixpoint splitScan (sep s cur : jsstring) (skip : nat) : list jsstring :=
  match s with
  | [] => [rev cur]
  | c :: s' =>
      match skip with
      | S k => splitScan sep s' cur k
      | O =>
          if startsWith sep s
          then rev cur :: splitScan sep s' [] (Nat.pred (List.length sep))
          else splitScan sep s' (c :: cur) O
      end
  end.

(** [String.prototype.split(separator)] without a limit: an empty separator
    splits into single code units, any other separator splits at its
    non-overlapping occurrences. *)
Definition split (s sep : jsstring) : list jsstring :=
  match sep with
  | [] => List.map (fun c => [c]) s
  | _ :: _ => splitScan sep s [] O
  end.

(** [Array.prototype.join]. *)
Fixpoint join (sep : jsstring) (l : list jsstring) : jsstring :=
  match l with
  | [] => []
  | [x] => x
  | x :: l' => x ++ sep ++ join sep l'
  end.

(** [Number::toString] in radix 10 for an integer. For a safe integer
    ([Number.isSafeInteger]) it is the decimal expansion, with a leading
    minus sign for a negative value. Beyond the safe integers a JavaScript
    number is not an arbitrary integer and is printed otherwise, so what is
    stated about the text of a number is stated for safe integers. *)
Definition isSafeInteger (n : Z) : Prop := Z.abs n <= 2 ^ 53 - 1.

Definition numberToString (n : Z) : jsstring :=
  js (NilZero.string_of_int (Z.to_int n)).

(** Reading a decimal integer back, the inverse of [numberToString]. *)
Definition parseInteger (s : jsstring) : option Z :=
  option_map Z.of_int (NilZero.int_of_string (unjs s)).

End JsString.
Import JsString.

(** ** The DOM as the extraction callback sees it *)

Module Dom.

(** A node is an element (its class list, its [href] property and its
    children in document order) or a text node. Only an anchor element has
    an [href] property, the resolved URL ([Some]); on any other element the
    property is [undefined] ([None]). The document itself is
    a node without classes whose children are its top-level nodes, so that
    the descendants of the document are all the nodes of the page. *)
#[local] Unset Elimination Schemes.
Inductive node : Type :=
| Element (classList : list jsstring) (href : option jsstring)
    (childNodes : list node)
| Text (data : jsstring).
#[local] Set Elimination Schemes.

(** The selectors of the source are compound class selectors: [".a.b"] is
    the list of class names [a], [b], all of which the element must carry. *)
Definition selector := list jsstring.

Definition matches (sel : selector) (n : node) : bool :=
  match n with
  | Element classList _ _ => forallb (fun c => bool_decide (c ∈ classList)) sel
  | Text _ => false
  end.

(** The descendants of a node in document order (pre-order). *)
Fixpoint descendants (n : node) : list node :=
  match n with
  | Element _ _ childNodes => flat_map (fun c => c :: descendants c) childNodes
  | Text _ => []
  end.

(** [node.querySelectorAll(sel)]: the matching descendants, document order. *)
Definition querySelectorAll (sel : selector) (n : node) : list node :=
  List.filter (matches sel) (descendants n).

(** [node.querySelector(sel)]: the first matching descendant, or [null]. *)
Definition querySelector (sel : selector) (n : node) : option node :=
  head (querySelectorAll sel n).

(** [node.textContent]: the text of all descendant text nodes, concatenated
    in document order. Its DOM type is [string | null]; it is [null] only for
    documents and doctypes, never for the nodes a selector returns. *)
Fixpoint textOf (n : node) : jsstring :=
  match n with
  | Element _ _ childNodes => List.concat (List.map textOf childNodes)
  | Text data => data
  end.

Definition textContent (n : node) : option jsstring := Some (textOf n).

(** [element.href], [undefined] where the element has no such property. *)
Definition hrefOf (n : node) : option jsstring :=
  match n with
  | Element _ h _ => h
  | Text _ => None
  end.

End Dom.
Import Dom.

(** ** The record and the extraction callback of [getContent] *)

(** A record as it leaves the page. The cast of the link element to an
    anchor is not checked at run time: where the element is not an anchor,
    [link] is [undefined] and the property is dropped when the record is
    handed out of the page and when it is written as JSON. *)
Record NewsItem : Type := mkNewsItem {
  date : jsstring;
  time : jsstring;
  title : jsstring;
  link : option jsstring;
  tags : list jsstring
}.

Definition sel_announceList : selector := [js "announce"; js "announce_articles"].
Definition sel_item : selector := [js "announce__item"].
Definition sel_date : selector := [js "announce__date"].
Definition sel_time : selector := [js "announce__time"].
Definition sel_link : selector := [js "announce__link"].
Definition sel_tags : selector := [js "announce__meta-tags"].

(** [x?.trim() || '']: [undefined] and the empty string are the falsy
    values of the left operand. *)
Definition strOr (x : option jsstring) (dflt : jsstring) : jsstring :=
  match x with
  | Some ((_ :: _) as s) => s
  | _ => dflt
  end.

(** [x?.trim().split(', ') || []]: only [undefined] is falsy here, every
    array is truthy, the empty one included. *)
Definition arrOr (x : option (list jsstring)) (dflt : list jsstring) : list jsstring :=
  match x with
  | Some a => a
  | None => dflt
  end.

(** The tag-parsing step applied to the tags element. *)
Definition parseTags (tagsElement : node) : list jsstring :=
  arrOr ((fun t => split (trim t) (js ", ")) <$> textContent tagsElement) [].

(** The body of the [forEach] callback for one item: the condition
    [dateElement && timeElement && linkElement] and the object it pushes. *)
Definition recordOf (item : node) : option NewsItem :=
  let dateElement := querySelector sel_date item in
  let timeElement := querySelector sel_time item in
  let linkElement := querySelector sel_link item in
  let tagsElement := querySelector sel_tags item in
  match dateElement, timeElement, linkElement with
  | Some dateElement, Some timeElement, Some linkElement =>
      Some {| date := strOr (trim <$> textContent dateElement) [];
              time := strOr (trim <$> textContent timeElement) [];
              title := strOr (trim <$> textContent linkElement) [];
              link := hrefOf linkElement;
              tags := match tagsElement with
                      | Some tagsElement => parseTags tagsElement
                      | None => []
                      end |}
  | _, _, _ => None
  end.

(** One round of [announceItems.forEach]: [items.push] appends. *)
Definition forEachStep (items : list NewsItem) (item : node) : list NewsItem :=
  match recordOf item with
  | Some r => items ++ [r]
  | None => items
  end.

(** The function passed to [page.evaluate], run on the document. *)
Definition extractNews (document : node) : list NewsItem :=
  let items := [] in
  match querySelector sel_announceList document with
  | None => items
  | Some announceList =>
      let announceItems := querySelectorAll sel_item announceList in
      fold_left forEachStep announceItems items
  end.

(** A fixture page: a listing container with a well-formed entry, an entry
    without its time element, and a well-formed entry without tags. *)
Module Fixture.

Definition el (cls : string) (children : list node) : node :=
  Element [js cls] None children.
Definition leaf (cls txt : string) : node := el cls [Text (js txt)].
Definition anchor (url txt : string) : node :=
  Element [js "announce__link"] (Some (js url)) [Text (js txt)].

Definition item1 : node :=
  el "announce__item"
     [leaf "announce__date" " 1 May 2024 "; leaf "announce__time" "10:15";
      anchor "https://mid.ru/ru/foreign_policy/news/1/" "First";
      leaf "announce__meta-tags" "Diplomacy, Europe, Bilateral"].
Definition item2 : node :=
  el "announce__item"
     [leaf "announce__date" "2 May 2024";
      anchor "https://mid.ru/ru/foreign_policy/news/2/" "Second"].
Definition item3 : node :=
  el "announce__item"
     [leaf "announce__date" "3 May 2024"; leaf "announce__time" "09:00";
      anchor "https://mid.ru/ru/foreign_policy/news/3/" "Third"].

Definition container : node :=
  Element [js "announce"; js "announce_articles"] None [item1; item2; item3].
Definition html (children : list node) : node := Element [] None children.
Definition body (children : list node) : node := Element [] None children.
Definition page : node :=
  Element [] None [html [body [el "header" []; container]]].

Definition record1 : NewsItem :=
  {| date := js "1 May 2024"; time := js "10:15"; title := js "First";
     link := Some (js "https://mid.ru/ru/foreign_policy/news/1/");
     tags := [js "Diplomacy"; js "Europe"; js "Bilateral"] |}.
Definition record3 : NewsItem :=
  {| date := js "3 May 2024"; time := js "09:00"; title := js "Third";
     link := Some (js "https://mid.ru/ru/foreign_policy/news/3/");
     tags := [] |}.

End Fixture.

(** ** [JSON.stringify] *)

Module Json.

#[local] Unset Elimination Schemes.
Inductive json : Type :=
| JString (s : jsstring)
| JArray (elements : list json)
| JObject (members : list (jsstring * json)).
#[local] Set Elimination Schemes.

Definition hexDigit (d : N) : N :=
  (if d <? 10 then 0x30 + d else 0x57 + d)%N.

(** [UnicodeEscape]: a backslash, [u] and four lowercase hex digits. *)
Definition unicodeEscape (c : N) : jsstring :=
  [0x5C; 0x75; hexDigit (c / 4096 mod 16); hexDigit (c / 256 mod 16);
   hexDigit (c / 16 mod 16); hexDigit (c mod 16)]%N.

Definition isLeadingSurrogate (c : N) : bool := ((0xD800 <=? c) && (c <=? 0xDBFF))%N.
Definition isTrailingSurrogate (c : N) : bool := ((0xDC00 <=? c) && (c <=? 0xDFFF))%N.

(** The escape of a code unit that is not part of a surrogate pair. *)
Definition quoteUnit (c : N) : jsstring :=
  (if c =? 0x08 then [0x5C; 0x62]
   else if c =? 0x09 then [0x5C; 0x74]
   else if c =? 0x0A then [0x5C; 0x6E]
   else if c =? 0x0C then [0x5C; 0x66]
   else if c =? 0x0D then [0x5C; 0x72]
   else if c =? 0x22 then [0x5C; 0x22]
   else if c =? 0x5C then [0x5C; 0x5C]
   else if (c <? 0x20) || isLeadingSurrogate c || isTrailingSurrogate c
        then unicodeEscape c
   else [c])%N.

Fixpoint quoteBody (s : jsstring) : jsstring :=
  match s with
  | [] => []
  | c :: s' =>
      match s' with
      | d :: s'' =>
          if isLeadingSurrogate c && isTrailingSurrogate d
          then c :: d :: quoteBody s''
          else quoteUnit c ++ quoteBody s'
      | [] => quoteUnit c
      end
  end.

(** [QuoteJSONString]. *)
Definition quoteJSONString (s : jsstring) : jsstring :=
  [0x22%N] ++ quoteBody s ++ [0x22%N].

Definition lineFeed : jsstring := [0x0A%N].

(** A literal between double quotes, for writing expected JSON text. *)
Definition quoted (s : string) : jsstring := [0x22%N] ++ js s ++ [0x22%N].

(** The text of a non-empty array or object: with an empty gap the parts are
    joined by commas; otherwise each part stands on a line of its own at the
    new indentation and the closing bracket at the old one. *)
Definition wrap (gap stepback indent opening closing : jsstring)
    (partial : list jsstring) : jsstring :=
  match gap with
  | [] => opening ++ join (js ",") partial ++ closing
  | _ :: _ =>
      let separator := js "," ++ lineFeed ++ indent in
      opening ++ lineFeed ++ indent ++ join separator partial
              ++ lineFeed ++ stepback ++ closing
  end.

(** [SerializeJSONProperty] with [SerializeJSONArray] and
    [SerializeJSONObject], for the values a record list is made of. *)
Fixpoint serializeJSON (gap indent : jsstring) (v : json) : jsstring :=
  match v with
  | JString s => quoteJSONString s
  | JArray elements =>
      let stepback := indent in
      let indent := indent ++ gap in
      let partial := List.map (serializeJSON gap indent) elements in
      match partial with
      | [] => js "[]"
      | _ :: _ => wrap gap stepback indent (js "[") (js "]") partial
      end
  | JObject members =>
      let stepback := indent in
      let indent := indent ++ gap in
      let partial :=
        List.map (fun m => quoteJSONString (fst m) ++ js ":"
                           ++ match gap with [] => [] | _ :: _ => js " " end
                           ++ serializeJSON gap indent (snd m)) members in
      match partial with
      | [] => js "{}"
      | _ :: _ => wrap gap stepback indent (js "{") (js "}") partial
      end
  end.

(** [JSON.stringify(value, null, space)] for a numeric [space]: the gap is
    that many spaces, at most ten. *)
Definition stringify (v : json) (space : nat) : jsstring :=
  serializeJSON (repeat 0x20%N (Nat.min space 10)) [] v.

End Json.
Import Json.

(** A [NewsItem] object as [JSON.stringify] walks it: its own properties in
    the order the object literal of the callback creates them; a property
    whose value is [undefined] is left out. *)
Definition newsItemValue (r : NewsItem) : json :=
  JObject ([(js "date", JString (date r)); (js "time", JString (time r));
            (js "title", JString (title r))]
           ++ match link r with
              | Some l => [(js "link", JString l)]
              | None => []
              end
           ++ [(js "tags", JArray (List.map JString (tags r)))]).

Definition newsItemsValue (data : list NewsItem) : json :=
  JArray (List.map newsItemValue data).

(** ** [path.join] (POSIX) *)

Module Path.

Definition slash : jsstring := js "/".

(** [normalizeString]: empty and [.] segments vanish; [..] removes the
    segment before it, and is kept (when [allowAboveRoot]) if there is none
    or the one before is itself [..]. [res] is the result so far, last
    segment first. *)
Fixpoint normalizeSegments (allowAboveRoot : bool) (segments res : list jsstring)
  : list jsstring :=
  match segments with
  | [] => rev res
  | seg :: rest =>
      if bool_decide (seg = []) || bool_decide (seg = js ".")
      then normalizeSegments allowAboveRoot rest res
      else if bool_decide (seg = js "..")
      then match res with
           | prev :: res' =>
               if bool_decide (prev = js "..")
               then normalizeSegments allowAboveRoot rest
                      (if allowAboveRoot then seg :: res else res)
               else normalizeSegments allowAboveRoot rest res'
           | [] =>
               normalizeSegments allowAboveRoot rest
                 (if allowAboveRoot then [seg] else [])
           end
      else normalizeSegments allowAboveRoot rest (seg :: res)
  end.

Definition isAbsolute (p : jsstring) : bool := startsWith slash p.
Definition hasTrailingSeparator (p : jsstring) : bool := startsWith slash (rev p).

(** [path.normalize]. *)
Definition normalize (p : jsstring) : jsstring :=
  match p with
  | [] => js "."
  | _ :: _ =>
      let body := join slash (normalizeSegments (negb (isAbsolute p)) (split p slash) []) in
      match body with
      | [] => if isAbsolute p then slash
              else if hasTrailingSeparator p then js "./" else js "."
      | _ :: _ =>
          let body := if hasTrailingSeparator p then body ++ slash else body in
          if isAbsolute p then slash ++ body else body
      end
  end.

(** [path.join(a, b)]: the non-empty arguments joined by a slash, then
    normalised. *)
Definition join2 (a b : jsstring) : jsstring :=
  match a, b with
  | [], [] => js "."
  | [], _ => normalize b
  | _, [] => normalize a
  | _, _ => normalize (a ++ slash ++ b)
  end.

End Path.

(** ** The environment: file system, browser, logger, process *)

(** A JavaScript [Error] with its message. *)
Inductive exn : Type := JsError (message : jsstring).

Module Fs.

(** The file system below the working directory: the directories that
    exist and the contents of the files, both keyed by normalised path. *)
Record FileSystem : Type := mkFs {
  dirs : gset jsstring;
  files : gmap jsstring jsstring
}.

(** [fs.existsSync]. *)
Definition existsSync (p : jsstring) (fs : FileSystem) : bool :=
  bool_decide (Path.normalize p ∈ dirs fs)
  || bool_decide (is_Some (files fs !! Path.normalize p)).

(** The directory itself and every directory above it, outermost first. *)
Fixpoint prefixesFrom (above : jsstring) (segments : list jsstring) : list jsstring :=
  match segments with
  | [] => []
  | seg :: rest =>
      let here := match above with [] => seg | _ :: _ => above ++ Path.slash ++ seg end in
      here :: prefixesFrom here rest
  end.

(** What a successful [fs.mkdirSync(p, { recursive: true })] leaves. *)
Definition mkdirRecursive (p : jsstring) (fs : FileSystem) : FileSystem :=
  {| dirs := dirs fs ∪ list_to_set (prefixesFrom [] (split (Path.normalize p) Path.slash));
     files := files fs |}.

(** What a successful [fs.writeFileSync(p, data)] leaves: the file holds
    [data], whatever it held before. *)
Definition writeFile (p data : jsstring) (fs : FileSystem) : FileSystem :=
  {| dirs := dirs fs; files := <[Path.normalize p := data]> (files fs) |}.

End Fs.
Import Fs.

Inductive Level : Type := LInfo | LWarn | LError.

(** What the run does to the outside, in the order it happens. *)
Inductive Event : Type :=
| EvLog (level : Level) (message : jsstring)
| EvConsole (message : jsstring)
| EvLaunch
| EvNewPage
| EvSetUserAgent
| EvSetExtraHTTPHeaders
| EvGoto (url : jsstring)
| EvWaitForSelector (sel : jsstring)
| EvContent
| EvWaitForNavigation
| EvEvaluate
| EvBrowserClose
| EvMkdir (p : jsstring)
| EvWriteFile (p data : jsstring).

(** The answers of the environment during one run. For a call that returns
    nothing of interest, [None] is success and [Some e] a rejection with
    [e]; [content] and [evaluate] answer with the page text and with the
    document the extraction callback is run on. *)
Record Env : Type := mkEnv {
  launch_result : option exn;
  newPage_result : option exn;
  setUserAgent_result : option exn;
  setExtraHTTPHeaders_result : option exn;
  goto_result : jsstring -> option exn;
  waitForSelector_result : option exn;
  content_result : exn + jsstring;
  waitForNavigation_result : option exn;
  evaluate_result : exn + node;
  browserClose_result : option exn;
  mkdirSync_result : option exn;
  writeFileSync_result : option exn
}.

Inductive Browser : Type := BrowserHandle.
Inductive Page : Type := PageHandle.

(** The fetcher object ([browser], [page]) together with the file system
    and the trace of events so far. *)
Record World : Type := mkWorld {
  browser : option Browser;
  page : option Page;
  fs : FileSystem;
  trace : list Event
}.

(** ** Computations: state, exceptions and process exit *)

Inductive completion (A : Type) : Type :=
| Normal (a : A)
| Throw (e : exn)
| Exit (code : Z).
Arguments Normal {A} a.
Arguments Throw {A} e.
Arguments Exit {A} code.

Definition M (A : Type) : Type := World -> completion A * World.

#[export] Instance M_ret : MRet M := fun A a w => (Normal a, w).

#[export] Instance M_bind : MBind M := fun A B f m w =>
  match m w with
  | (Normal a, w') => f a w'
  | (Throw e, w') => (Throw e, w')
  | (Exit c, w') => (Exit c, w')
  end.

Definition throw {A} (e : exn) : M A := fun w => (Throw e, w).

(** [try { m } catch (error) { h error }]; [process.exit] is not caught. *)
Definition tryCatch {A} (m : M A) (h : exn -> M A) : M A := fun w =>
  match m w with
  | (Throw e, w') => h e w'
  | r => r
  end.

(** [try { m } finally { f }]: [f] runs after [m] however [m] completed,
    and a throw of [f] replaces the completion of [m]. *)
Definition tryFinally {A} (m : M A) (f : M unit) : M A := fun w =>
  match m w with
  | (Exit c, w') => (Exit c, w')
  | (r, w') =>
      match f w' with
      | (Normal _, w'') => (r, w'')
      | (Throw e, w'') => (Throw e, w'')
      | (Exit c, w'') => (Exit c, w'')
      end
  end.

Definition emit (ev : Event) : M unit := fun w =>
  (Normal tt, {| browser := browser w; page := page w; fs := fs w;
                 trace := trace w ++ [ev] |}).

Definition getBrowser : M (option Browser) := fun w => (Normal (browser w), w).
Definition getPage : M (option Page) := fun w => (Normal (page w), w).
Definition getFs : M FileSystem := fun w => (Normal (fs w), w).

Definition setBrowser (b : option Browser) : M unit := fun w =>
  (Normal tt, {| browser := b; page := page w; fs := fs w; trace := trace w |}).
Definition setPage (p : option Page) : M unit := fun w =>
  (Normal tt, {| browser := browser w; page := p; fs := fs w; trace := trace w |}).
Definition modifyFs (f : FileSystem -> FileSystem) : M unit := fun w =>
  (Normal tt, {| browser := browser w; page := page w; fs := f (fs w);
                 trace := trace w |}).

(** A call into the environment: it is recorded, then it succeeds or
    throws as the environment answers. *)
Definition call (ev : Event) (answer : option exn) : M unit :=
  emit ev ;;
  match answer with
  | None => mret tt
  | Some e => throw e
  end.

Definition callFor {A} (ev : Event) (answer : exn + A) : M A :=
  emit ev ;;
  match answer with
  | inr a => mret a
  | inl e => throw e
  end.

(** The logger. A call is recorded in the trace with its level and the
    message it was given. The sinks of the logger are its own: the console
    and the two files [error.log] and [combined.log] in the working
    directory, to which it appends lines with a time stamp. These two files
    are not part of [fs], which holds what the script reaches through the
    [fs] module; statements about files are therefore made for paths other
    than the logger's files ([loggerFiles]). *)
Definition logger_info (message : jsstring) : M unit := emit (EvLog LInfo message).
Definition logger_warn (message : jsstring) : M unit := emit (EvLog LWarn message).
Definition logger_error (message : jsstring) : M unit := emit (EvLog LError message).

Definition process_exit (code : Z) : M unit := fun w => (Exit code, w).

(** ** The class [NewsFeedFetcher] and [main] *)

Definition baseUrl : jsstring := js "https://mid.ru/ru/foreign_policy/news/".
Definition pagedUrlPrefix : jsstring := js "https://mid.ru/ru/foreign_policy/news/?PAGEN_1=".

(** The conditional that builds [url] in [getContent]. *)
Definition listingUrl (pageNumber : Z) : jsstring :=
  if pageNumber =? 1 then baseUrl else pagedUrlPrefix ++ numberToString pageNumber.

Definition antiBotMarker : jsstring := js "Data processing... Please, wait.".
Definition outputDir : jsstring := js "./output".

Definition notInitialized : exn := JsError (js "Browser not initialized").
Definition initializationFailed : exn := JsError (js "Browser initialization failed").
Definition fetchFailed (pageNumber : Z) : exn :=
  JsError (js "Failed to fetch content from page " ++ numberToString pageNumber).
Definition saveFailed : exn := JsError (js "Failed to save data to JSON").

Section Fetcher.

Variable env : Env.

(** [page.evaluate(callback)]: the callback runs on the page's document. *)
Definition page_evaluate {A} (callback : node -> A) : M A :=
  document ← callFor EvEvaluate (evaluate_result env);
  mret (callback document).

Definition initialize : M unit :=
  tryCatch
    (call EvLaunch (launch_result env) ;;
     setBrowser (Some BrowserHandle) ;;
     call EvNewPage (newPage_result env) ;;
     setPage (Some PageHandle) ;;
     call EvSetUserAgent (setUserAgent_result env) ;;
     call EvSetExtraHTTPHeaders (setExtraHTTPHeaders_result env) ;;
     logger_info (js "Browser initialized successfully"))
    (fun error =>
       logger_error (js "Failed to initialize browser:") ;;
       throw initializationFailed).

Definition getContent (pageNumber : Z) : M (list NewsItem) :=
  p ← getPage;
  match p with
  | None => throw notInitialized
  | Some _ =>
      tryCatch
        (let url := listingUrl pageNumber in
         logger_info (js "Fetching page " ++ numberToString pageNumber ++ js "...") ;;
         call (EvGoto url) (goto_result env url) ;;
         tryCatch
           (call (EvWaitForSelector (js ".announce.announce_articles"))
                 (waitForSelector_result env))
           (fun _ => logger_warn (js "Timeout waiting for .announce.announce_articles")) ;;
         pageContent ← callFor EvContent (content_result env);
         (if includes pageContent antiBotMarker
          then
            logger_info (js "Anti-bot protection detected. Waiting for page to load...") ;;
            tryCatch
              (call EvWaitForNavigation (waitForNavigation_result env))
              (fun _ => logger_warn (js "Timeout waiting for navigation"))
          else mret tt) ;;
         newsItems ← page_evaluate extractNews;
         logger_info (js "Found " ++ numberToString (Z.of_nat (List.length newsItems))
                      ++ js " news items on page " ++ numberToString pageNumber) ;;
         mret newsItems)
        (fun error =>
           logger_error (js "Error fetching content from page "
                         ++ numberToString pageNumber ++ js ":") ;;
           throw (fetchFailed pageNumber))
  end.

Definition saveToJSON (data : list NewsItem) (filename : jsstring) : M unit :=
  tryCatch
    (let dir := outputDir in
     fs0 ← getFs;
     (if negb (existsSync dir fs0)
      then call (EvMkdir dir) (mkdirSync_result env) ;; modifyFs (mkdirRecursive dir)
      else mret tt) ;;
     let filePath := Path.join2 dir filename in
     let text := stringify (newsItemsValue data) 2 in
     call (EvWriteFile filePath text) (writeFileSync_result env) ;;
     modifyFs (writeFile filePath text) ;;
     logger_info (js "Data saved to " ++ filePath))
    (fun error =>
       logger_error (js "Error saving data to JSON:") ;;
       throw saveFailed).

Definition close : M unit :=
  b ← getBrowser;
  match b with
  | Some _ =>
      call EvBrowserClose (browserClose_result env) ;;
      logger_info (js "Browser closed")
  | None => mret tt
  end.

(** The [try] block of [main]. *)
Definition mainTry : M unit :=
  initialize ;;
  newsItems ← getContent 1;
  saveToJSON newsItems (js "news_feed.json") ;;
  logger_info (js "Total news items fetched: "
               ++ numberToString (Z.of_nat (List.length newsItems))).

Definition main : M unit :=
  tryFinally
    (tryCatch mainTry (fun error => logger_error (js "An error occurred:")))
    close.

(** The last statement of the script: [main().catch(...)]. *)
Definition script : M unit :=
  tryCatch main
    (fun error =>
       logger_error (js "Unhandled error in main function:") ;;
       process_exit 1).

End Fetcher.

(** [new NewsFeedFetcher()] in a process that starts on file system [fs0]. *)
Definition newFetcher (fs0 : FileSystem) : World :=
  {| browser := None; page := None; fs := fs0; trace := [] |}.

(** The exit status of the process: the argument of [process.exit] if it
    was called, 0 when the script ran to its end, and 1 (Node's default)
    for a rejection that nothing handled. *)
Definition exitStatus {A} (c : completion A) : Z :=
  match c with
  | Exit code => code
  | Normal _ => 0
  | Throw _ => 1
  end.

Definition run (env : Env) (fs0 : FileSystem) : completion unit * World :=
  script env (newFetcher fs0).

(** Observations on a trace: the URLs navigated to, and the files written. *)
Definition gotoUrls (t : list Event) : list jsstring :=
  omap (fun ev => match ev with EvGoto url => Some url | _ => None end) t.

Definition writtenPaths (t : list Event) : list jsstring :=
  omap (fun ev => match ev with EvWriteFile p _ => Some p | _ => None end) t.

(** ** The first variant of the script, [feed.ts]

    It builds the URL and the records with the same expressions, logs to the
    console, guards nothing with [try], and looks for the items in the whole
    document. *)

Module Feed.

Definition console_log (message : jsstring) : M unit := emit (EvConsole message).

Definition extractNews (document : node) : list NewsItem :=
  let items := [] in
  let announceItems := querySelectorAll sel_item document in
  fold_left forEachStep announceItems items.

Section FeedFetcher.

Variable env : Env.

Definition getContent (pageNumber : Z) : M (list NewsItem) :=
  p ← getPage;
  match p with
  | None => throw notInitialized
  | Some _ =>
      let url := listingUrl pageNumber in
      console_log (js "Fetching page " ++ numberToString pageNumber ++ js "...") ;;
      call (EvGoto url) (goto_result env url) ;;
      newsItems ← page_evaluate env extractNews;
      mret newsItems
  end.

Definition close : M unit :=
  b ← getBrowser;
  match b with
  | Some _ => call EvBrowserClose (browserClose_result env)
  | None => mret tt
  end.

End FeedFetcher.

End Feed.

(** How [getContent] completes once the page is there: it throws its own
    error as soon as one of the calls it does not guard rejects, and
    returns the extracted records otherwise. *)
Definition getContentOutcome (env : Env) (pageNumber : Z) : completion (list NewsItem) :=
  match goto_result env (listingUrl pageNumber) with
  | Some _ => Throw (fetchFailed pageNumber)
  | None =>
      match content_result env with
      | inl _ => Throw (fetchFailed pageNumber)
      | inr _ =>
          match evaluate_result env with
          | inl _ => Throw (fetchFailed pageNumber)
          | inr document => Normal (extractNews document)
          end
      end
  end.


(** ** Sample environments *)

Module Scenario.

Definition emptyFs : FileSystem := {| dirs := ∅; files := ∅ |}.

(** Every call succeeds, the page shows the fixture. *)
Definition fine : Env :=
  {| launch_result := None; newPage_result := None;
     setUserAgent_result := None; setExtraHTTPHeaders_result := None;
     goto_result := fun _ => None; waitForSelector_result := None;
     content_result := inr (js "<html><body>news</body></html>");
     waitForNavigation_result := None;
     evaluate_result := inr Fixture.page;
     browserClose_result := None;
     mkdirSync_result := None; writeFileSync_result := None |}.

Definition timeoutError : exn := JsError (js "Waiting failed: timeout exceeded").
Definition protocolError : exn := JsError (js "Protocol error: Target closed").
Definition launchError : exn := JsError (js "Failed to launch the browser process").
Definition contextError : exn :=
  JsError (js "Execution context was destroyed, most likely because of a navigation").

(** The browser cannot be launched. *)
Definition noBrowser : Env :=
  {| launch_result := Some launchError; newPage_result := None;
     setUserAgent_result := None; setExtraHTTPHeaders_result := None;
     goto_result := fun _ => None; waitForSelector_result := None;
     content_result := inr (js "<html><body>news</body></html>");
     waitForNavigation_result := None;
     evaluate_result := inr Fixture.page;
     browserClose_result := None;
     mkdirSync_result := None; writeFileSync_result := None |}.

(** Everything works except closing the browser. *)
Definition closeFails : Env :=
  {| launch_result := None; newPage_result := None;
     setUserAgent_result := None; setExtraHTTPHeaders_result := None;
     goto_result := fun _ => None; waitForSelector_result := None;
     content_result := inr (js "<html><body>news</body></html>");
     waitForNavigation_result := None;
     evaluate_result := inr Fixture.page;
     browserClose_result := Some protocolError;
     mkdirSync_result := None; writeFileSync_result := None |}.

(** The navigation completes, then reading the page text fails. *)
Definition contentFails : Env :=
  {| launch_result := None; newPage_result := None;
     setUserAgent_result := None; setExtraHTTPHeaders_result := None;
     goto_result := fun _ => None; waitForSelector_result := None;
     content_result := inl contextError;
     waitForNavigation_result := None;
     evaluate_result := inr Fixture.page;
     browserClose_result := None;
     mkdirSync_result := None; writeFileSync_result := None |}.

(** Both waits time out on a page that shows the anti-bot text and never
    renders the listing container. *)
Definition bothWaitsTimeOut : Env :=
  {| launch_result := None; newPage_result := None;
     setUserAgent_result := None; setExtraHTTPHeaders_result := None;
     goto_result := fun _ => None; waitForSelector_result := Some timeoutError;
     content_result := inr (js "<html>Data processing... Please, wait.</html>");
     waitForNavigation_result := Some timeoutError;
     evaluate_result := inr (Element [] None [Fixture.html [Fixture.body []]]);
     browserClose_result := None;
     mkdirSync_result := None; writeFileSync_result := None |}.

(** A fetcher after a successful [initialize]. *)
Definition initialized : World :=
  {| browser := Some BrowserHandle; page := Some PageHandle;
     fs := emptyFs; trace := [] |}.

End Scenario.

(** ** The rest of [feed.ts]

    [initialize], [saveToJSON] and [main] of the first variant: the same
    steps as in [index.ts], without the logger and without a [try] inside
    the methods, so that a rejection leaves a method as it is. The trace
    records a console line without telling [console.log] from
    [console.error]. *)

Module FeedMain.

Definition console_error (message : jsstring) : M unit := emit (EvConsole message).

Section FeedMainFetcher.

Variable env : Env.

Definition initialize : M unit :=
  call EvLaunch (launch_result env) ;;
  setBrowser (Some BrowserHandle) ;;
  call EvNewPage (newPage_result env) ;;
  setPage (Some PageHandle) ;;
  call EvSetUserAgent (setUserAgent_result env).

Definition saveToJSON (data : list NewsItem) (filename : jsstring) : M unit :=
  let dir := outputDir in
  fs0 ← getFs;
  (if negb (existsSync dir fs0)
   then call (EvMkdir dir) (mkdirSync_result env) ;; modifyFs (mkdirRecursive dir)
   else mret tt) ;;
  let filePath := Path.join2 dir filename in
  let text := stringify (newsItemsValue data) 2 in
  call (EvWriteFile filePath text) (writeFileSync_result env) ;;
  modifyFs (writeFile filePath text) ;;
  Feed.console_log (js "Data saved to " ++ filePath).

Definition mainTry : M unit :=
  initialize ;;
  newsItems ← Feed.getContent env 1;
  saveToJSON newsItems (js "news_feed.json") ;;
  Feed.console_log (js "Total news items fetched: "
                    ++ numberToString (Z.of_nat (List.length newsItems))).

Definition main : M unit :=
  tryFinally
    (tryCatch mainTry (fun error => console_error (js "An error occurred:")))
    (Feed.close env).

End FeedMainFetcher.

End FeedMain.

(** ** Further observations *)

(** How often the browser was launched and closed in a trace, and whether
    the wait for the anti-bot navigation took place. *)
Definition launches (t : list Event) : nat :=
  List.length (List.filter (fun ev => match ev with EvLaunch => true | _ => false end) t).

Definition browserCloses (t : list Event) : nat :=
  List.length (List.filter (fun ev => match ev with EvBrowserClose => true | _ => false end) t).

Definition waitedForNavigation (t : list Event) : bool :=
  existsb (fun ev => match ev with EvWaitForNavigation => true | _ => false end) t.

(** The last event of a trace is the given error-level log line. *)
Definition endsWithErrorLog (message : jsstring) (t : list Event) : Prop :=
  exists t0, t = t0 ++ [EvLog LError message].

Definition startsWithWhiteSpace (s : jsstring) : bool :=
  match s with
  | c :: _ => isWhiteSpace c
  | [] => false
  end.

Definition endsWithWhiteSpace (s : jsstring) : bool := startsWithWhiteSpace (rev s).


(** The environment in which every call succeeds, with the given page text
    and document. *)
Definition allSucceed (env : Env) (text : jsstring) (document : node) : Prop :=
  launch_result env = None /\ newPage_result env = None
  /\ setUserAgent_result env = None /\ setExtraHTTPHeaders_result env = None
  /\ goto_result env (listingUrl 1) = None
  /\ content_result env = inr text /\ evaluate_result env = inr document
  /\ browserClose_result env = None
  /\ mkdirSync_result env = None /\ writeFileSync_result env = None.

(** The separator starts at no position of the current piece of a split,
    read together with the rest of the text. *)
Definition noOccurrence (sep cur s : jsstring) : Prop :=
  forall u v, rev cur = u ++ v -> v <> [] -> startsWith sep (v ++ s) = false.

(** Two more environments: the write is refused; the page opens but the
    user agent cannot be set. *)
Definition writeRefused : Env :=
  {| launch_result := None; newPage_result := None;
     setUserAgent_result := None; setExtraHTTPHeaders_result := None;
     goto_result := fun _ => None; waitForSelector_result := None;
     content_result := inr (js "<html><body>news</body></html>");
     waitForNavigation_result := None;
     evaluate_result := inr Fixture.page;
     browserClose_result := None;
     mkdirSync_result := None;
     writeFileSync_result := Some (JsError (js "EACCES: permission denied")) |}.

Definition userAgentFails : Env :=
  {| launch_result := None; newPage_result := None;
     setUserAgent_result := Some Scenario.protocolError;
     setExtraHTTPHeaders_result := None;
     goto_result := fun _ => None; waitForSelector_result := None;
     content_result := inr (js "<html><body>news</body></html>");
     waitForNavigation_result := None;
     evaluate_result := inr Fixture.page;
     browserClose_result := None;
     mkdirSync_result := None; writeFileSync_result := None |}.

(** ** Reading the JSON text back *)

Module JsonRead.

Inductive token : Type :=
| TLBracket | TRBracket | TLBrace | TRBrace | TComma | TColon
| TString (s : jsstring).

(** Where the lexer is: between tokens, inside a string literal ([acc] is
    the text so far, reversed), after a backslash, or inside the four hex
    digits of a [\u] escape ([more] digits to come after the next one,
    [value] read so far). *)
Inductive lexState : Type :=
| Out
| InString (acc : jsstring)
| Escape (acc : jsstring)
| Unicode (acc : jsstring) (more : nat) (value : N).

Definition isJsonWhiteSpace (c : N) : bool :=
  ((c =? 0x20) || (c =? 0x09) || (c =? 0x0A) || (c =? 0x0D))%N.

Definition punctuation (c : N) : option token :=
  (if c =? 0x5B then Some TLBracket
   else if c =? 0x5D then Some TRBracket
   else if c =? 0x7B then Some TLBrace
   else if c =? 0x7D then Some TRBrace
   else if c =? 0x2C then Some TComma
   else if c =? 0x3A then Some TColon
   else None)%N.

(** The character a two-character escape stands for. *)
Definition unescape (c : N) : option N :=
  (if c =? 0x22 then Some 0x22
   else if c =? 0x5C then Some 0x5C
   else if c =? 0x2F then Some 0x2F
   else if c =? 0x62 then Some 0x08
   else if c =? 0x66 then Some 0x0C
   else if c =? 0x6E then Some 0x0A
   else if c =? 0x72 then Some 0x0D
   else if c =? 0x74 then Some 0x09
   else None)%N.

Definition hexValue (c : N) : option N :=
  (if (0x30 <=? c) && (c <=? 0x39) then Some (c - 0x30)
   else if (0x61 <=? c) && (c <=? 0x66) then Some (c - 0x57)
   else if (0x41 <=? c) && (c <=? 0x46) then Some (c - 0x37)
   else None)%N.

(** The lexical grammar of JSON for the tokens a record list uses: white
    space between tokens, the six punctuation marks, and string literals
    with their escapes; a raw control character inside a string and an
    unfinished string are errors. *)
Fixpoint lex (st : lexState) (text : jsstring) : option (list token) :=
  match text with
  | [] => match st with Out => Some [] | _ => None end
  | c :: rest =>
      match st with
      | Out =>
          if isJsonWhiteSpace c then lex Out rest
          else if (c =? 0x22)%N then lex (InString []) rest
          else match punctuation c with
               | Some t => cons t <$> lex Out rest
               | None => None
               end
      | InString acc =>
          if (c =? 0x22)%N then cons (TString (rev acc)) <$> lex Out rest
          else if (c =? 0x5C)%N then lex (Escape acc) rest
          else if (c <? 0x20)%N then None
          else lex (InString (c :: acc)) rest
      | Escape acc =>
          if (c =? 0x75)%N then lex (Unicode acc 3 0) rest
          else match unescape c with
               | Some d => lex (InString (d :: acc)) rest
               | None => None
               end
      | Unicode acc more value =>
          match hexValue c with
          | None => None
          | Some d =>
              let value := (value * 16 + d)%N in
              match more with
              | O => lex (InString (value :: acc)) rest
              | S more' => lex (Unicode acc more' value) rest
              end
          end
      end
  end.

(** An array of strings after its opening bracket: the strings, and the
    tokens after the closing bracket. *)
Fixpoint readMoreStrings (ts : list token) : option (list jsstring * list token) :=
  match ts with
  | TRBracket :: rest => Some ([], rest)
  | TComma :: TString s :: rest =>
      match readMoreStrings rest with
      | Some (l, rest') => Some (s :: l, rest')
      | None => None
      end
  | _ => None
  end.

Definition readStrings (ts : list token) : option (list jsstring * list token) :=
  match ts with
  | TRBracket :: rest => Some ([], rest)
  | TString s :: rest =>
      match readMoreStrings rest with
      | Some (l, rest') => Some (s :: l, rest')
      | None => None
      end
  | _ => None
  end.

(** A member [key: string] followed by a comma. *)
Definition readMember (key : jsstring) (ts : list token) : option (jsstring * list token) :=
  match ts with
  | TString k :: TColon :: TString v :: TComma :: rest =>
      if bool_decide (k = key) then Some (v, rest) else None
  | _ => None
  end.

(** One record object: [date], [time], [title], then [link] if it is
    there, then [tags]. *)
Definition readItem (ts : list token) : option (NewsItem * list token) :=
  match ts with
  | TLBrace :: ts =>
      '(d, ts) ← readMember (js "date") ts;
      '(t, ts) ← readMember (js "time") ts;
      '(x, ts) ← readMember (js "title") ts;
      let '(l, ts) :=
        match readMember (js "link") ts with
        | Some (l, ts') => (Some l, ts')
        | None => (None, ts)
        end in
      match ts with
      | TString k :: TColon :: TLBracket :: ts =>
          if bool_decide (k = js "tags") then
            '(g, ts) ← readStrings ts;
            match ts with
            | TRBrace :: rest =>
                Some ({| date := d; time := t; title := x; link := l; tags := g |}, rest)
            | _ => None
            end
          else None
      | _ => None
      end
  | _ => None
  end.

(** The records after the first, up to the closing bracket; [fuel] bounds
    the number of records. *)
Fixpoint readMoreItems (fuel : nat) (ts : list token) : option (list NewsItem) :=
  match fuel with
  | O => None
  | S fuel' =>
      match ts with
      | [TRBracket] => Some []
      | TComma :: ts =>
          '(r, ts) ← readItem ts;
          l ← readMoreItems fuel' ts;
          Some (r :: l)
      | _ => None
      end
  end.

Definition readItems (ts : list token) : option (list NewsItem) :=
  match ts with
  | [TLBracket; TRBracket] => Some []
  | TLBracket :: ts =>
      '(r, ts) ← readItem ts;
      l ← readMoreItems (List.length ts) ts;
      Some (r :: l)
  | _ => None
  end.

(** Reading a JSON text as a list of records. *)
Definition readNewsItems (text : jsstring) : option (list NewsItem) :=
  lex Out text ≫= readItems.

(** The text [p] is a sequence of whole tokens [t]: in front of any text it
    adds these tokens to what the rest lexes to. *)
Definition lexesTo (p : jsstring) (t : list token) : Prop :=
  forall rest r, lex Out rest = Some r -> lex Out (p ++ rest) = Some (t ++ r).

End JsonRead.
Import JsonRead.

(** A string of UTF-16 code units, and a record made of such strings. *)
Definition validString (s : jsstring) : Prop := Forall (fun c => (c < 65536)%N) s.

Definition validItem (r : NewsItem) : Prop :=
  validString (date r) /\ validString (time r) /\ validString (title r)
  /\ (forall l, link r = Some l -> validString l)
  /\ Forall validString (tags r).

(** The tokens of a record list. *)
Fixpoint commaSeparated (l : list (list token)) : list token :=
  match l with
  | [] => []
  | [x] => x
  | x :: l' => x ++ TComma :: commaSeparated l'
  end.

Definition memberTokens (key : string) (value : jsstring) : list token :=
  [TString (js key); TColon; TString value].

Definition itemTokens (r : NewsItem) : list token :=
  TLBrace
  :: commaSeparated
       ([memberTokens "date" (date r); memberTokens "time" (time r);
         memberTokens "title" (title r)]
        ++ match link r with
           | Some l => [memberTokens "link" l]
           | None => []
           end
        ++ [[TString (js "tags"); TColon; TLBracket]
            ++ commaSeparated (List.map (fun s => [TString s]) (tags r))
            ++ [TRBracket]])
  ++ [TRBrace].

Definition itemsTokens (data : list NewsItem) : list token :=
  TLBracket :: commaSeparated (List.map itemTokens data) ++ [TRBracket].

(** Text made of JSON white space only. *)
Definition whiteSpaceOnly (s : jsstring) : Prop :=
  Forall (fun c => isJsonWhiteSpace c = true) s.

(** The files of the logger's two file transports, in the working
    directory. *)
Definition loggerFiles : list jsstring := [js "error.log"; js "combined.log"].

(** The layout of the text, written out: every level of nesting is indented
    by two more spaces, every element and member stands on its own line, an
    empty array is [[]], and a member is its quoted key, a colon, a space
    and its value. *)
Definition layoutStrings (indent : jsstring) (l : list jsstring) : jsstring :=
  match l with
  | [] => js "[]"
  | _ :: _ =>
      js "[" ++ lineFeed ++ (indent ++ js "  ")
      ++ join (js "," ++ lineFeed ++ (indent ++ js "  ")) (List.map quoteJSONString l)
      ++ lineFeed ++ indent ++ js "]"
  end.

Definition layoutItem (indent : jsstring) (r : NewsItem) : jsstring :=
  js "{" ++ lineFeed ++ (indent ++ js "  ")
  ++ join (js "," ++ lineFeed ++ (indent ++ js "  "))
       ([quoted "date" ++ js ": " ++ quoteJSONString (date r);
         quoted "time" ++ js ": " ++ quoteJSONString (time r);
         quoted "title" ++ js ": " ++ quoteJSONString (title r)]
        ++ match link r with
           | Some l => [quoted "link" ++ js ": " ++ quoteJSONString l]
           | None => []
           end
        ++ [quoted "tags" ++ js ": " ++ layoutStrings (indent ++ js "  ") (tags r)])
  ++ lineFeed ++ indent ++ js "}".

Definition layoutItems (data : list NewsItem) : jsstring :=
  match data with
  | [] => js "[]"
  | _ :: _ =>
      js "[" ++ lineFeed ++ js "  "
      ++ join (js "," ++ lineFeed ++ js "  ") (List.map (layoutItem (js "  ")) data)
      ++ lineFeed ++ js "]"
  end.

(** The output directory cannot be created. *)
Definition mkdirRefused : Env :=
  {| launch_result := None; newPage_result := None;
     setUserAgent_result := None; setExtraHTTPHeaders_result := None;
     goto_result := fun _ => None; waitForSelector_result := None;
     content_result := inr (js "<html><body>news</body></html>");
     waitForNavigation_result := None;
     evaluate_result := inr Fixture.page;
     browserClose_result := None;
     mkdirSync_result := Some (JsError (js "EACCES: permission denied"));
     writeFileSync_result := None |}.

(** ** Proof automation *)

(** Symbolic execution of a computation: unfold the operations, then split
    on the answers of the environment in the order the code asks for
    them. *)
Ltac unfold_ops :=
  unfold Feed.getContent, Feed.close, Feed.console_log,
    script, main, mainTry, initialize, getContent, saveToJSON, close,
    page_evaluate, tryFinally, tryCatch, call, callFor,
    logger_info, logger_warn, logger_error, process_exit, emit, throw,
    getBrowser, getPage, getFs, setBrowser, setPage, modifyFs,
    mbind, M_bind, mret, M_ret in *.

Ltac split_answer :=
  match goal with
  | |- context [match ?x with _ => _ end] =>
      lazymatch x with
      | context [match _ with _ => _ end] => fail
      | _ => destruct x eqn:?
      end
  end.

Ltac reduce_world := cbn beta iota zeta delta [fst snd browser page fs trace].

Ltac execute := unfold_ops; reduce_world; repeat (split_answer; reduce_world).

(** An event is in a trace built by appending. *)
Ltac in_trace :=
  lazymatch goal with
  | |- _ ∈ _ ++ _ =>
      apply elem_of_app; first [ right; in_trace | left; in_trace ]
  | |- _ ∈ _ :: _ =>
      first [ apply list_elem_of_here | apply list_elem_of_further; in_trace ]
  end.

(** The leaves of a symbolic execution of the whole run. *)
Ltac run_leaf :=
  cbn [exitStatus]; repeat split; intros;
  try congruence; try in_trace; try (intuition congruence);
  try (rewrite <- (app_assoc _ [EvBrowserClose] [_]); eexists; reflexivity).

(** The cases of [saveToJSON] on a world. *)
Ltac save_cases w :=
  destruct w as [b pg f t]; execute;
  rewrite ?negb_true_iff, ?negb_false_iff in *.

(** Symbolic execution of the methods of [feed.ts]. *)
Ltac execute_feed :=
  unfold FeedMain.main, FeedMain.mainTry, FeedMain.initialize,
    FeedMain.saveToJSON, FeedMain.console_error;
  execute.

(** * Properties *)

(** ** Strings *)

Section StringFacts.

Lemma unjs_js (s : string) : unjs (js s) = s.
Proof.
  unfold unjs, js. rewrite List.map_map.
  rewrite (List.map_ext _ (fun a => a)) by (intros a; apply ascii_N_embedding).
  rewrite List.map_id. apply string_of_list_ascii_of_string.
Qed.

Lemma to_int_proper (n : Z) :
  Z.to_int n <> Decimal.Pos Decimal.Nil /\ Z.to_int n <> Decimal.Neg Decimal.Nil.
Proof.
  destruct n as [|q|q]; simpl; split; try discriminate;
    intros [= H]; exact (DecimalPos.Unsigned.to_uint_nonnil q H).
Qed.

(** The decimal text of an integer reads back as that integer. *)
Lemma parseInteger_numberToString (n : Z) :
  parseInteger (numberToString n) = Some n.
Proof.
  unfold parseInteger, numberToString. rewrite unjs_js.
  destruct (to_int_proper n) as [Hp Hn].
  rewrite (NilZero.isi _ Hp Hn). simpl. f_equal. apply DecimalZ.of_to.
Qed.

(** The scan of [split] always pushes a last piece. *)
Lemma splitScan_nonempty (sep s cur : jsstring) (skip : nat) :
  splitScan sep s cur skip <> [].
Proof.
  revert cur skip. induction s as [|c s IH]; intros cur skip; simpl.
  - discriminate.
  - destruct skip as [|k]; [|apply IH].
    destruct (startsWith sep (c :: s)); [discriminate | apply IH].
Qed.

Lemma split_nonempty (s sep : jsstring) : sep <> [] -> split s sep <> [].
Proof.
  destruct sep as [|a sep]; [congruence|]. intros _. apply splitScan_nonempty.
Qed.

Lemma startsWith_prefix (sep s : jsstring) :
  startsWith sep s = true -> s = sep ++ drop (List.length sep) s.
Proof.
  revert s. induction sep as [|a sep IH]; intros s H; [reflexivity|].
  destruct s as [|b s]; [discriminate|]. cbn in H.
  apply andb_true_iff in H as [Hab Hs]. apply N.eqb_eq in Hab as ->.
  cbn. f_equal. now apply IH.
Qed.

Lemma join_cons (sep x : jsstring) (l : list jsstring) :
  l <> [] -> join sep (x :: l) = x ++ sep ++ join sep l.
Proof. destruct l; [congruence | reflexivity]. Qed.

(** Joining the pieces with the separator gives the text back: the scan
    loses no code unit and cuts only at occurrences of the separator. *)
Lemma join_splitScan (sep s cur : jsstring) (skip : nat) :
  sep <> [] -> (skip <= List.length s)%nat ->
  join sep (splitScan sep s cur skip) = rev cur ++ drop skip s.
Proof.
  intros Hsep. revert cur skip.
  induction s as [|c s IH]; intros cur skip Hk; cbn [splitScan].
  - assert (skip = 0%nat) as -> by (cbn in Hk; lia).
    cbn. now rewrite app_nil_r.
  - destruct skip as [|k].
    + destruct (startsWith sep (c :: s)) eqn:E.
      * rewrite join_cons by apply splitScan_nonempty.
        apply startsWith_prefix in E.
        destruct sep as [|a sep]; [congruence|].
        cbn [List.length Nat.pred drop] in *.
        assert (Hlen : (List.length sep <= List.length s)%nat).
        { apply (f_equal (@List.length N)) in E.
          cbn [List.length app] in E. rewrite length_app in E. lia. }
        rewrite (IH [] (List.length sep) Hlen).
        cbn [rev app drop]. f_equal. symmetry. exact E.
      * rewrite (IH (c :: cur) 0%nat) by lia.
        cbn [rev drop]. now rewrite <- app_assoc.
    + cbn [drop]. apply IH. cbn in Hk. lia.
Qed.

Lemma join_split (s sep : jsstring) : sep <> [] -> join sep (split s sep) = s.
Proof.
  intros Hsep. unfold split. destruct sep as [|a sep']; [congruence|].
  rewrite join_splitScan; [reflexivity | exact Hsep | cbn; lia].
Qed.

End StringFacts.

(** ** The extraction callback *)

Section Extraction.

Lemma fold_forEachStep (l : list node) (acc : list NewsItem) :
  fold_left forEachStep l acc = acc ++ omap recordOf l.
Proof.
  revert acc. induction l as [|item l IH]; intros acc; simpl.
  - now rewrite app_nil_r.
  - rewrite IH. unfold forEachStep. destruct (recordOf item) as [r|]; simpl.
    + now rewrite <- app_assoc.
    + reflexivity.
Qed.

Lemma recordOf_is_Some (item : node) :
  is_Some (recordOf item) <->
  is_Some (querySelector sel_date item)
  /\ is_Some (querySelector sel_time item)
  /\ is_Some (querySelector sel_link item).
Proof.
  unfold recordOf.
  destruct (querySelector sel_date item), (querySelector sel_time item),
    (querySelector sel_link item); split;
    try (intros [? [=]]); try (intros (?&?&?)); repeat split; eauto;
    match goal with H : is_Some None |- _ => destruct H as [? [=]] end.
Qed.

Lemma parseTags_nonempty (tagsElement : node) : parseTags tagsElement <> [].
Proof.
  change (split (trim (textOf tagsElement)) (js ", ") <> []).
  apply split_nonempty. discriminate.
Qed.

End Extraction.

(** C3 as stated would have the empty tag text parse to the empty
    sequence. [split] returns the whole text as its only piece when the
    separator does not occur, so the result holds one empty string. *)
Lemma parseTags_empty_text_is_not_empty :
  split (trim (js "")) (js ", ") <> []
  /\ parseTags (Element [js "announce__meta-tags"] None []) <> [].
Proof. split; vm_compute; discriminate. Qed.

(** C3, amended: the tag-parsing step splits the trimmed text of the tags
    element on the separator [", "], so that joining the tags with the
    separator gives the trimmed text back; the text with three tags parses
    to the three tags in order, and the empty text (an empty tags element)
    parses to the sequence holding one empty string. *)
Theorem parseTags_examples :
  parseTags (Text (js "Diplomacy, Europe, Bilateral"))
    = [js "Diplomacy"; js "Europe"; js "Bilateral"]
  /\ (forall tagsElement : node,
        parseTags tagsElement = split (trim (textOf tagsElement)) (js ", ")
        /\ join (js ", ") (parseTags tagsElement) = trim (textOf tagsElement))
  /\ parseTags (Element [js "announce__meta-tags"] None []) = [js ""]
  /\ split (trim (js "")) (js ", ") = [js ""].
Proof.
  split; [|split; [|split]].
  - vm_compute. reflexivity.
  - intros tagsElement. split; [reflexivity|].
    change (parseTags tagsElement) with (split (trim (textOf tagsElement)) (js ", ")).
    apply join_split. discriminate.
  - vm_compute. reflexivity.
  - vm_compute. reflexivity.
Qed.

(** C10: in an emitted record, a tags element that is present gives a tags
    sequence with at least one element, so the sequence is empty only when
    the tags element is absent; a present element without text gives the
    sequence of one empty string. *)
Theorem tags_empty_only_without_tags_element :
  (forall (item : node) (r : NewsItem),
      recordOf item = Some r ->
      (is_Some (querySelector sel_tags item) -> tags r <> [])
      /\ (tags r = [] -> querySelector sel_tags item = None))
  /\ (forall s : jsstring, split s (js ", ") <> [])
  /\ parseTags (Element [js "announce__meta-tags"] None []) = [js ""].
Proof.
  split; [|split].
  - intros item r H. unfold recordOf in H.
    destruct (querySelector sel_date item); [|discriminate].
    destruct (querySelector sel_time item); [|discriminate].
    destruct (querySelector sel_link item); [|discriminate].
    injection H as <-. simpl.
    destruct (querySelector sel_tags item) as [te|].
    + split; [intros _; apply parseTags_nonempty|].
      intros H. now apply parseTags_nonempty in H.
    + split; [intros [? [=]] | reflexivity].
  - intros s. apply split_nonempty. discriminate.
  - vm_compute. reflexivity.
Qed.

(** ** Running the fetcher *)

Section Close.

Variable env : Env.

Lemma close_without_browser (w : World) :
  browser w = None -> close env w = (Normal tt, w).
Proof. intros H. unfold_ops. now destruct (browser w). Qed.

Lemma close_with_browser (w : World) (b : Browser) :
  browser w = Some b ->
  close env w =
  match browserClose_result env with
  | None =>
      (Normal tt,
       {| browser := Some b; page := page w; fs := fs w;
          trace := trace w ++ [EvBrowserClose; EvLog LInfo (js "Browser closed")] |})
  | Some e =>
      (Throw e,
       {| browser := Some b; page := page w; fs := fs w;
          trace := trace w ++ [EvBrowserClose] |})
  end.
Proof.
  intros H. unfold_ops. rewrite H.
  destruct (browserClose_result env); cbn; rewrite ?H, <- ?app_assoc; reflexivity.
Qed.

End Close.

Section GetContent.

Variable env : Env.

Lemma getContent_not_initialized (pageNumber : Z) (w : World) :
  page w = None -> getContent env pageNumber w = (Throw notInitialized, w).
Proof. intros H. unfold_ops. now rewrite H. Qed.

Lemma getContent_completion (pageNumber : Z) (w : World) :
  page w <> None ->
  fst (getContent env pageNumber w) = getContentOutcome env pageNumber.
Proof.
  intros H. unfold getContentOutcome. destruct w as [b [pg|] f t]; [clear H|done].
  execute; reflexivity.
Qed.

Lemma getContent_frame (pageNumber : Z) (w : World) :
  browser (snd (getContent env pageNumber w)) = browser w
  /\ page (snd (getContent env pageNumber w)) = page w
  /\ fs (snd (getContent env pageNumber w)) = fs w.
Proof. destruct w as [b pg f t]. execute; auto. Qed.

Lemma getContent_trace (pageNumber : Z) (w : World) :
  page w <> None ->
  exists rest,
    trace (snd (getContent env pageNumber w)) =
    trace w ++ EvLog LInfo (js "Fetching page " ++ numberToString pageNumber ++ js "...")
            :: EvGoto (listingUrl pageNumber) :: rest.
Proof.
  intros H. destruct w as [b [pg|] f t]; [clear H|done].
  execute; rewrite <- ?app_assoc; eexists; reflexivity.
Qed.

Lemma getContent_gotoUrls (pageNumber : Z) (w : World) :
  page w <> None ->
  gotoUrls (trace (snd (getContent env pageNumber w))) =
  gotoUrls (trace w) ++ [listingUrl pageNumber].
Proof.
  intros H. destruct w as [b [pg|] f t]; [clear H|done].
  unfold gotoUrls. execute; rewrite !omap_app, <- ?app_assoc; cbn; f_equal;
    now rewrite ?app_nil_r.
Qed.

End GetContent.

(** ** Extraction through [getContent] *)

(** C1: the extraction visits the items of the listing container in
    document order and emits one record for exactly those items that have a
    date element, a time element and a link element; an item missing one of
    them contributes nothing, no partial record, and the emitted records
    keep the order of their items; [getContent] returns that list. On the
    fixture with two well-formed items and one item without its time
    element, [getContent(1)] returns exactly the two records, in document
    order. *)
Theorem extractNews_emits_well_formed_items_in_order :
  (forall document : node,
      extractNews document =
      match querySelector sel_announceList document with
      | Some announceList => omap recordOf (querySelectorAll sel_item announceList)
      | None => []
      end)
  /\ (forall item : node,
        is_Some (recordOf item) <->
        is_Some (querySelector sel_date item)
        /\ is_Some (querySelector sel_time item)
        /\ is_Some (querySelector sel_link item))
  /\ (forall (items : list NewsItem) (item : node),
        recordOf item = None -> forEachStep items item = items)
  /\ (forall (env : Env) (n : Z) (w : World) (text : jsstring) (document : node),
        page w <> None ->
        goto_result env (listingUrl n) = None ->
        content_result env = inr text ->
        evaluate_result env = inr document ->
        fst (getContent env n w) = Normal (extractNews document))
  /\ querySelectorAll sel_item Fixture.container
     = [Fixture.item1; Fixture.item2; Fixture.item3]
  /\ querySelector sel_time Fixture.item2 = None
  /\ fst (getContent Scenario.fine 1 Scenario.initialized)
     = Normal [Fixture.record1; Fixture.record3].
Proof.
  split; [|split; [|split; [|split; [|split; [|split]]]]].
  - intros document. unfold extractNews.
    destruct (querySelector sel_announceList document); [|reflexivity].
    now rewrite fold_forEachStep.
  - apply recordOf_is_Some.
  - intros items item H. unfold forEachStep. now rewrite H.
  - intros env n w text document Hp Hg Hc He.
    rewrite getContent_completion by exact Hp.
    unfold getContentOutcome. now rewrite Hg, Hc, He.
  - vm_compute. reflexivity.
  - vm_compute. reflexivity.
  - vm_compute. reflexivity.
Qed.

Section FeedFacts.

Variable env : Env.

Lemma feed_getContent_gotoUrls (pageNumber : Z) (w : World) :
  page w <> None ->
  gotoUrls (trace (snd (Feed.getContent env pageNumber w))) =
  gotoUrls (trace w) ++ [listingUrl pageNumber].
Proof.
  intros H. destruct w as [b [pg|] f t]; [clear H|done].
  unfold gotoUrls. execute; rewrite !omap_app, <- ?app_assoc; cbn; f_equal;
    now rewrite ?app_nil_r.
Qed.

Lemma feed_getContent_not_rejected (pageNumber : Z) (w : World) (document : node) :
  page w <> None ->
  goto_result env (listingUrl pageNumber) = None ->
  evaluate_result env = inr document ->
  fst (Feed.getContent env pageNumber w) = Normal (Feed.extractNews document).
Proof.
  intros H Hg He. destruct w as [b [pg|] f t]; [clear H|done].
  unfold_ops. rewrite Hg, He. reflexivity.
Qed.

Lemma feed_close_cases (w : World) :
  match browser w, browserClose_result env with
  | None, _ => Feed.close env w = (Normal tt, w)
  | Some b, None =>
      Feed.close env w =
      (Normal tt,
       {| browser := Some b; page := page w; fs := fs w;
          trace := trace w ++ [EvBrowserClose] |})
  | Some b, Some e =>
      Feed.close env w =
      (Throw e,
       {| browser := Some b; page := page w; fs := fs w;
          trace := trace w ++ [EvBrowserClose] |})
  end.
Proof.
  destruct w as [[b|] pg f t]; unfold_ops; reduce_world; [|reflexivity].
  destruct (browserClose_result env); reflexivity.
Qed.

End FeedFacts.

(** ** The listing URL *)

Lemma pagedUrlPrefix_eq : pagedUrlPrefix = baseUrl ++ js "?PAGEN_1=".
Proof. vm_compute. reflexivity. Qed.

Lemma listingUrl_paged (n : Z) :
  n <> 1 -> listingUrl n = baseUrl ++ js "?PAGEN_1=" ++ numberToString n.
Proof.
  intros H. unfold listingUrl. destruct (Z.eqb_spec n 1); [done|].
  now rewrite pagedUrlPrefix_eq, <- app_assoc.
Qed.

(** C2: for a page number of 2 or more, [getContent] navigates to the
    listing URL followed by the query parameter [PAGEN_1] whose value is the
    decimal text of that very number (it reads back as the number); for page
    number 1 it navigates to the bare listing URL, which has no query part.
    The same holds for [getContent] of [feed.ts]. Page numbers are the safe
    integers, on which the decimal text is what JavaScript prints. *)
Theorem listingUrl_carries_page_number (n : Z) :
  isSafeInteger n -> 2 <= n ->
  listingUrl n = baseUrl ++ js "?PAGEN_1=" ++ numberToString n
  /\ parseInteger (numberToString n) = Some n
  /\ listingUrl 1 = baseUrl
  /\ includes baseUrl (js "?") = false
  /\ (forall (env : Env) (w : World),
        page w <> None ->
        gotoUrls (trace (snd (getContent env n w))) =
          gotoUrls (trace w) ++ [baseUrl ++ js "?PAGEN_1=" ++ numberToString n]
        /\ gotoUrls (trace (snd (getContent env 1 w))) =
          gotoUrls (trace w) ++ [baseUrl]
        /\ gotoUrls (trace (snd (Feed.getContent env n w))) =
          gotoUrls (trace w) ++ [baseUrl ++ js "?PAGEN_1=" ++ numberToString n]
        /\ gotoUrls (trace (snd (Feed.getContent env 1 w))) =
          gotoUrls (trace w) ++ [baseUrl]).
Proof.
  intros _ Hn.
  assert (Hu : listingUrl n = baseUrl ++ js "?PAGEN_1=" ++ numberToString n)
    by (apply listingUrl_paged; lia).
  split; [exact Hu|]. split; [apply parseInteger_numberToString|].
  split; [reflexivity|]. split; [vm_compute; reflexivity|].
  intros env w Hp. rewrite <- Hu.
  split; [now apply getContent_gotoUrls|].
  split; [now apply getContent_gotoUrls|].
  split; now apply feed_getContent_gotoUrls.
Qed.

Lemma listingUrl_carries_page_number_at_7 :
  listingUrl 7 = baseUrl ++ js "?PAGEN_1=" ++ numberToString 7.
Proof.
  apply (listingUrl_carries_page_number 7).
  - unfold isSafeInteger. simpl. lia.
  - lia.
Defined.

(** C9: the page number is not validated. For every page number other than
    1, zero and negative numbers included, [getContent] goes on to navigate
    to the paginated URL with the number's text in [PAGEN_1], and completes
    as the environment lets it: with the extracted records when the
    navigation, the page text and the evaluation succeed. The same holds for
    [getContent] of [feed.ts]. *)
Theorem getContent_does_not_validate_page_number (n : Z) :
  isSafeInteger n -> n <> 1 ->
  listingUrl n = baseUrl ++ js "?PAGEN_1=" ++ numberToString n
  /\ (forall (env : Env) (w : World),
        page w <> None ->
        gotoUrls (trace (snd (getContent env n w))) =
          gotoUrls (trace w) ++ [baseUrl ++ js "?PAGEN_1=" ++ numberToString n]
        /\ gotoUrls (trace (snd (Feed.getContent env n w))) =
          gotoUrls (trace w) ++ [baseUrl ++ js "?PAGEN_1=" ++ numberToString n]
        /\ (forall (text : jsstring) (document : node),
              goto_result env (listingUrl n) = None ->
              content_result env = inr text ->
              evaluate_result env = inr document ->
              fst (getContent env n w) = Normal (extractNews document)
              /\ fst (Feed.getContent env n w) = Normal (Feed.extractNews document)))
  /\ listingUrl 0 = js "https://mid.ru/ru/foreign_policy/news/?PAGEN_1=0"
  /\ listingUrl (-3) = js "https://mid.ru/ru/foreign_policy/news/?PAGEN_1=-3".
Proof.
  intros _ Hn.
  assert (Hu : listingUrl n = baseUrl ++ js "?PAGEN_1=" ++ numberToString n)
    by now apply listingUrl_paged.
  split; [exact Hu|]. split; [|split; vm_compute; reflexivity].
  intros env w Hp. rewrite <- Hu.
  split; [now apply getContent_gotoUrls|].
  split; [now apply feed_getContent_gotoUrls|].
  intros text document Hg Hc He. split.
  - rewrite getContent_completion by exact Hp.
    unfold getContentOutcome. now rewrite Hg, Hc, He.
  - now apply feed_getContent_not_rejected.
Qed.

Lemma getContent_does_not_validate_page_number_at_0 :
  fst (getContent Scenario.fine 0 Scenario.initialized)
  = Normal [Fixture.record1; Fixture.record3].
Proof.
  refine (proj1 (proj2 (proj2 (proj1 (proj2
    (getContent_does_not_validate_page_number 0 _ _))
    Scenario.fine Scenario.initialized _)) _ Fixture.page _ _ _)).
  - unfold isSafeInteger. simpl. lia.
  - lia.
  - discriminate.
  - reflexivity.
  - reflexivity.
  - reflexivity.
Defined.

(** ** [close] *)

(** C5 as stated would have [close] never throw. When the browser's own
    [close] rejects, [close] throws that very error to its caller, and
    logs nothing. *)
Lemma close_propagates_browser_close_failure :
  close Scenario.closeFails Scenario.initialized =
  (Throw Scenario.protocolError,
   {| browser := Some BrowserHandle; page := Some PageHandle;
      fs := Scenario.emptyFs; trace := [EvBrowserClose] |})
  /\ Feed.close Scenario.closeFails Scenario.initialized =
     (Throw Scenario.protocolError,
      {| browser := Some BrowserHandle; page := Some PageHandle;
         fs := Scenario.emptyFs; trace := [EvBrowserClose] |}).
Proof. split; reflexivity. Qed.

(** C5, amended: [close] releases the browser session if one is held (it
    calls the browser's [close] and then logs that the browser is closed)
    and does nothing, without throwing, when no session is held; a failure
    of the browser's [close] is not handled in [close]: it is thrown to the
    caller, with nothing logged. [close] of [feed.ts] does the same without
    the log line. *)
Theorem close_releases_or_propagates (env : Env) (w : World) :
  match browser w, browserClose_result env with
  | None, _ =>
      close env w = (Normal tt, w) /\ Feed.close env w = (Normal tt, w)
  | Some b, None =>
      close env w =
      (Normal tt,
       {| browser := Some b; page := page w; fs := fs w;
          trace := trace w ++ [EvBrowserClose; EvLog LInfo (js "Browser closed")] |})
      /\ Feed.close env w =
         (Normal tt,
          {| browser := Some b; page := page w; fs := fs w;
             trace := trace w ++ [EvBrowserClose] |})
  | Some b, Some e =>
      close env w =
      (Throw e,
       {| browser := Some b; page := page w; fs := fs w;
          trace := trace w ++ [EvBrowserClose] |})
      /\ Feed.close env w =
         (Throw e,
          {| browser := Some b; page := page w; fs := fs w;
             trace := trace w ++ [EvBrowserClose] |})
  end.
Proof.
  pose proof (feed_close_cases env w) as Hf.
  destruct (browser w) as [b|] eqn:Hb.
  - rewrite (close_with_browser env w b Hb).
    now destruct (browserClose_result env).
  - split; [now apply close_without_browser | exact Hf].
Qed.

(** ** [getContent] *)

(** C6 as stated would have [getContent] throw its error only when the
    navigation cannot be attempted or completed. Here the navigation
    completes and the selector wait succeeds; reading the page text then
    rejects, and [getContent] throws its error. *)
Lemma getContent_fails_after_completed_navigation :
  page Scenario.initialized <> None
  /\ goto_result Scenario.contentFails (listingUrl 1) = None
  /\ fst (getContent Scenario.contentFails 1 Scenario.initialized)
     = Throw (fetchFailed 1).
Proof. split; [discriminate | split; reflexivity]. Qed.

Lemma getContent_selector_timeout_logged (env : Env) (n : Z) (w : World) (e : exn) :
  page w <> None ->
  goto_result env (listingUrl n) = None ->
  waitForSelector_result env = Some e ->
  EvLog LWarn (js "Timeout waiting for .announce.announce_articles")
    ∈ trace (snd (getContent env n w)).
Proof.
  intros H Hg Hw. destruct w as [b [pg|] f t]; [clear H|done].
  unfold_ops. rewrite Hg, Hw. execute; in_trace.
Qed.

Lemma getContent_navigation_timeout_logged (env : Env) (n : Z) (w : World)
    (text : jsstring) (e : exn) :
  page w <> None ->
  goto_result env (listingUrl n) = None ->
  content_result env = inr text ->
  includes text antiBotMarker = true ->
  waitForNavigation_result env = Some e ->
  EvLog LWarn (js "Timeout waiting for navigation")
    ∈ trace (snd (getContent env n w)).
Proof.
  intros H Hg Hc Hi Hw. destruct w as [b [pg|] f t]; [clear H|done].
  unfold_ops. rewrite Hg, Hc, Hw.
  destruct (waitForSelector_result env); reduce_world; rewrite Hi;
    execute; in_trace.
Qed.

(** C6, amended: with the page present, [getContent] throws its error
    exactly when the navigation, the reading of the page text or the
    evaluation of the extraction callback rejects. A rejected selector wait
    and a rejected wait for the anti-bot navigation are logged as warnings
    and absorbed: they do not change how [getContent] completes. When the
    three calls succeed it returns the extracted records, the empty list
    included. *)
Theorem getContent_fetch_error_iff (env : Env) (n : Z) (w : World) :
  page w <> None ->
  (fst (getContent env n w) = Throw (fetchFailed n) <->
     goto_result env (listingUrl n) <> None
     \/ (exists e, content_result env = inl e)
     \/ (exists e, evaluate_result env = inl e))
  /\ (forall (text : jsstring) (document : node),
        goto_result env (listingUrl n) = None ->
        content_result env = inr text ->
        evaluate_result env = inr document ->
        fst (getContent env n w) = Normal (extractNews document)
        /\ (extractNews document = [] -> fst (getContent env n w) = Normal [])
        /\ (forall e, waitForSelector_result env = Some e ->
              EvLog LWarn (js "Timeout waiting for .announce.announce_articles")
                ∈ trace (snd (getContent env n w)))
        /\ (forall e, includes text antiBotMarker = true ->
              waitForNavigation_result env = Some e ->
              EvLog LWarn (js "Timeout waiting for navigation")
                ∈ trace (snd (getContent env n w)))).
Proof.
  intros Hp. rewrite (getContent_completion env n w Hp). unfold getContentOutcome.
  split.
  - destruct (goto_result env (listingUrl n)) as [e|].
    { split; [intros _; left; discriminate | reflexivity]. }
    destruct (content_result env) as [e|text].
    { split; [intros _; right; left; eauto | reflexivity]. }
    destruct (evaluate_result env) as [e|document].
    { split; [intros _; right; right; eauto | reflexivity]. }
    split; [discriminate|].
    intros [H|[[e [=]]|[e [=]]]]. now destruct H.
  - intros text document Hg Hc He. rewrite Hg, Hc, He.
    split; [reflexivity|]. split; [now intros ->|]. split.
    + intros e Hw. now apply (getContent_selector_timeout_logged env n w e).
    + intros e Hi Hw.
      now apply (getContent_navigation_timeout_logged env n w text e).
Qed.

Lemma getContent_fetch_error_iff_timeouts :
  fst (getContent Scenario.bothWaitsTimeOut 1 Scenario.initialized) = Normal [].
Proof.
  refine (proj1 (proj2
    (getContent_fetch_error_iff Scenario.bothWaitsTimeOut 1 Scenario.initialized _)
    _ (Element [] None [Fixture.html [Fixture.body []]]) _ _ _)).
  - discriminate.
  - reflexivity.
  - reflexivity.
  - reflexivity.
Defined.

(** ** The whole run *)

(** C8: without a page, [getContent] throws the "not initialized" error at
    once and leaves the world as it was, so that no navigation is attempted;
    and a run whose [initialize] throws ends without any navigation and
    without writing any file: the file system is the one the run started
    on. *)
Theorem no_navigation_without_initialization :
  (forall (env : Env) (n : Z) (w : World),
      page w = None -> getContent env n w = (Throw notInitialized, w))
  /\ (forall (env : Env) (fs0 : FileSystem) (e : exn) (w1 : World),
        initialize env (newFetcher fs0) = (Throw e, w1) ->
        e = initializationFailed
        /\ gotoUrls (trace (snd (run env fs0))) = []
        /\ writtenPaths (trace (snd (run env fs0))) = []
        /\ fs (snd (run env fs0)) = fs0)
  /\ (exists e w1,
        initialize Scenario.noBrowser (newFetcher Scenario.emptyFs) = (Throw e, w1)).
Proof.
  split; [|split].
  - intros env n w. apply getContent_not_initialized.
  - intros env fs0 e w1 H. unfold run, newFetcher in *. unfold_ops.
    reduce_world. cbn beta iota zeta delta [fst snd browser page fs trace] in H.
    repeat (split_answer;
            cbn beta iota zeta delta [fst snd browser page fs trace] in * );
      try discriminate; injection H as <- <-; repeat split; reflexivity.
  - eexists _, _. reflexivity.
Qed.

(** C4 as stated would have a run in which initialization throws end with
    a non-zero exit status. The error is caught inside [main], which then
    completes normally, so the handler that calls [process.exit(1)] is not
    reached and the process ends with status 0. *)
Lemma initialization_failure_exits_with_status_0 :
  fst (initialize Scenario.noBrowser (newFetcher Scenario.emptyFs))
    = Throw initializationFailed
  /\ exitStatus (fst (run Scenario.noBrowser Scenario.emptyFs)) = 0.
Proof. split; reflexivity. Qed.

(** C4, amended: a failure of initialization, fetch or persistence is
    caught inside [main] and logged there; the browser is closed on every
    path on which it was launched; the process ends with status 1 exactly
    when a failure escapes [main], which happens when the browser was
    launched and closing it fails, and that failure is logged before the
    exit; in every other run, the runs with a caught failure included, the
    process ends with status 0. *)
Theorem exit_status_of_run (env : Env) (fs0 : FileSystem) :
  (forall (e : exn) (w1 : World),
      mainTry env (newFetcher fs0) = (Throw e, w1) ->
      EvLog LError (js "An error occurred:") ∈ trace (snd (run env fs0)))
  /\ (launch_result env = None -> EvBrowserClose ∈ trace (snd (run env fs0)))
  /\ (exitStatus (fst (run env fs0)) = 1 <->
        launch_result env = None /\ browserClose_result env <> None)
  /\ (exitStatus (fst (run env fs0)) = 0 <->
        ~ (launch_result env = None /\ browserClose_result env <> None))
  /\ (exitStatus (fst (run env fs0)) = 1 ->
        exists t,
          trace (snd (run env fs0)) =
          t ++ [EvBrowserClose; EvLog LError (js "Unhandled error in main function:")]).
Proof.
  unfold run, newFetcher. execute; run_leaf.
Qed.

(** ** [saveToJSON] *)

Section Persist.

Lemma normalize_outputDir : Path.normalize outputDir = js "output".
Proof. vm_compute. reflexivity. Qed.

Lemma mkdirRecursive_outputDir (f : FileSystem) :
  Path.normalize outputDir ∈ dirs (mkdirRecursive outputDir f).
Proof.
  unfold mkdirRecursive. cbn [dirs]. rewrite normalize_outputDir.
  replace (prefixesFrom [] (split (js "output") Path.slash)) with [js "output"]
    by (vm_compute; reflexivity).
  set_solver.
Qed.

Lemma existsSync_mkdirRecursive (f : FileSystem) :
  existsSync outputDir (mkdirRecursive outputDir f) = true.
Proof.
  unfold existsSync. apply orb_true_iff. left. apply bool_decide_eq_true.
  apply mkdirRecursive_outputDir.
Qed.

Lemma existsSync_writeFile (d p text : jsstring) (f : FileSystem) :
  existsSync d f = true -> existsSync d (writeFile p text f) = true.
Proof.
  unfold existsSync, writeFile. cbn [dirs files].
  rewrite !orb_true_iff, !bool_decide_eq_true. intros [H|H]; [now left|right].
  destruct (decide (Path.normalize p = Path.normalize d)) as [->|Hne].
  - rewrite lookup_insert_eq. eauto.
  - now rewrite lookup_insert_ne.
Qed.

Lemma files_writeFile (p text : jsstring) (f : FileSystem) :
  files (writeFile p text f) !! Path.normalize p = Some text.
Proof. unfold writeFile. cbn [files]. apply lookup_insert_eq. Qed.

Lemma files_writeFile_other (p text q : jsstring) (f : FileSystem) :
  q <> Path.normalize p -> files (writeFile p text f) !! q = files f !! q.
Proof. intros H. unfold writeFile. cbn [files]. now rewrite lookup_insert_ne. Qed.

(** A text without the separator is a single piece. *)
Lemma splitScan_no_separator (c : N) (s cur : jsstring) :
  c ∉ s -> splitScan [c] s cur 0 = [rev cur ++ s].
Proof.
  revert cur. induction s as [|a s IH]; intros cur Hs.
  - cbn. now rewrite app_nil_r.
  - apply not_elem_of_cons in Hs as [Hne Hs]. cbn.
    destruct (N.eqb_spec c a) as [->|_]; [done|]. cbn.
    rewrite IH by exact Hs. cbn. now rewrite <- app_assoc.
Qed.

Lemma last_no_separator (c : N) (s t : jsstring) :
  s <> [] -> c ∉ s -> startsWith [c] (rev s ++ t) = false.
Proof.
  intros Hs Hc. destruct (rev s) as [|a r] eqn:E.
  - apply (f_equal (@rev N)) in E. rewrite rev_involutive in E. now destruct Hs.
  - cbn [app startsWith]. rewrite andb_true_r. apply N.eqb_neq. intros ->.
    destruct Hc. apply list_elem_of_In, in_rev. rewrite E. now left.
Qed.

(** For a plain file name the path is the name below [output]. *)
Lemma join2_outputDir_plain (filename : jsstring) :
  filename <> [] -> filename <> js "." -> filename <> js ".." ->
  0x2F%N ∉ filename ->
  Path.join2 outputDir filename = js "output/" ++ filename.
Proof.
  intros Hne Hdot Hdots Hslash.
  destruct filename as [|a name] eqn:E; [done|]. rewrite <- E in *.
  assert (Hj : Path.join2 outputDir filename
               = Path.normalize (js "./output/" ++ filename)) by now rewrite E.
  rewrite Hj. unfold Path.normalize.
  change (js "./output/" ++ filename)
    with (46 :: 47 :: 111 :: 117 :: 116 :: 112 :: 117 :: 116 :: 47 :: filename)%N.
  cbn beta iota.
  assert (Htrail : Path.hasTrailingSeparator
            (46 :: 47 :: 111 :: 117 :: 116 :: 112 :: 117 :: 116 :: 47 :: filename)%N
          = false).
  { unfold Path.hasTrailingSeparator.
    change (46 :: 47 :: 111 :: 117 :: 116 :: 112 :: 117 :: 116 :: 47 :: filename)%N
      with (js "./output/" ++ filename).
    rewrite rev_app_distr. now apply last_no_separator. }
  rewrite Htrail.
  assert (Hsplit : split (46 :: 47 :: 111 :: 117 :: 116 :: 112 :: 117 :: 116 :: 47 :: filename)%N
                     Path.slash = [js "."; js "output"; filename]).
  { unfold split, Path.slash. cbn.
    rewrite splitScan_no_separator by exact Hslash. reflexivity. }
  rewrite Hsplit.
  change (Path.isAbsolute _) with false. cbn [negb].
  assert (Hseg : Path.normalizeSegments true [js "."; js "output"; filename] []
                 = [js "output"; filename]).
  { cbn [Path.normalizeSegments].
    rewrite (bool_decide_eq_true_2 (js "." = js ".")) by reflexivity.
    rewrite orb_true_r.
    rewrite (bool_decide_eq_false_2 (js "output" = [])) by discriminate.
    rewrite (bool_decide_eq_false_2 (js "output" = js ".")) by discriminate.
    rewrite (bool_decide_eq_false_2 (js "output" = js "..")) by discriminate.
    rewrite (bool_decide_eq_false_2 (filename = [])) by exact Hne.
    rewrite (bool_decide_eq_false_2 (filename = js ".")) by exact Hdot.
    rewrite (bool_decide_eq_false_2 (filename = js "..")) by exact Hdots.
    reflexivity. }
  rewrite Hseg. reflexivity.
Qed.



Variable env : Env.
Variable data : list NewsItem.
Variable filename : jsstring.

Lemma saveToJSON_success_iff (w : World) :
  fst (saveToJSON env data filename w) = Normal tt <->
  (existsSync outputDir (fs w) = true \/ mkdirSync_result env = None)
  /\ writeFileSync_result env = None.
Proof. save_cases w; intuition congruence. Qed.

Lemma saveToJSON_completion (w : World) :
  fst (saveToJSON env data filename w) = Normal tt
  \/ fst (saveToJSON env data filename w) = Throw saveFailed.
Proof. save_cases w; auto. Qed.

Lemma saveToJSON_directory (w : World) :
  fst (saveToJSON env data filename w) = Normal tt ->
  existsSync outputDir (fs (snd (saveToJSON env data filename w))) = true
  /\ (existsSync outputDir (fs w) = false ->
      Path.normalize outputDir ∈ dirs (fs (snd (saveToJSON env data filename w)))).
Proof.
  save_cases w; intros H; try discriminate H; split;
    try (apply existsSync_writeFile; first [apply existsSync_mkdirRecursive | done]);
    try congruence.
  intros _. apply mkdirRecursive_outputDir.
Qed.

Lemma saveToJSON_file_content (w : World) :
  fst (saveToJSON env data filename w) = Normal tt ->
  files (fs (snd (saveToJSON env data filename w)))
    !! Path.normalize (Path.join2 outputDir filename)
  = Some (stringify (newsItemsValue data) 2).
Proof.
  save_cases w; intros H; try discriminate H; apply files_writeFile.
Qed.

Lemma saveToJSON_other_files (w : World) (q : jsstring) :
  fst (saveToJSON env data filename w) = Normal tt ->
  q <> Path.normalize (Path.join2 outputDir filename) ->
  files (fs (snd (saveToJSON env data filename w))) !! q = files (fs w) !! q.
Proof.
  save_cases w; intros H Hq; try discriminate H;
    now rewrite files_writeFile_other.
Qed.

Lemma saveToJSON_writtenPaths (w : World) :
  fst (saveToJSON env data filename w) = Normal tt ->
  writtenPaths (trace (snd (saveToJSON env data filename w)))
  = writtenPaths (trace w) ++ [Path.join2 outputDir filename].
Proof.
  unfold writtenPaths.
  save_cases w; intros H; try discriminate H;
    rewrite !omap_app, <- ?app_assoc; cbn [omap list_omap app];
    now rewrite ?app_nil_r.
Qed.

End Persist.

(** The text written for one record with one tag, line by line. *)
Example stringify_one_record :
  stringify
    (newsItemsValue
       [{| date := js "1 May 2024"; time := js "10:15"; title := js "First";
           link := Some (js "https://mid.ru/1/"); tags := [js "Europe"] |}]) 2
  = join lineFeed
      [js "[";
       js "  {";
       js "    " ++ quoted "date" ++ js ": " ++ quoted "1 May 2024" ++ js ",";
       js "    " ++ quoted "time" ++ js ": " ++ quoted "10:15" ++ js ",";
       js "    " ++ quoted "title" ++ js ": " ++ quoted "First" ++ js ",";
       js "    " ++ quoted "link" ++ js ": " ++ quoted "https://mid.ru/1/" ++ js ",";
       js "    " ++ quoted "tags" ++ js ": [";
       js "      " ++ quoted "Europe";
       js "    ]";
       js "  }";
       js "]"].
Proof. vm_compute. reflexivity. Qed.

(** A first save on an empty file system creates the directory and the
    file; a second save of the empty list leaves the text of the empty
    array in it. *)
Example saveToJSON_twice :
  let w1 := snd (saveToJSON Scenario.fine [Fixture.record1] (js "news_feed.json")
                   Scenario.initialized) in
  let w2 := snd (saveToJSON Scenario.fine [] (js "news_feed.json") w1) in
  existsSync outputDir Scenario.emptyFs = false
  /\ existsSync outputDir (fs w1) = true
  /\ files (fs w1) !! js "output/news_feed.json"
     = Some (stringify (newsItemsValue [Fixture.record1]) 2)
  /\ files (fs w2) !! js "output/news_feed.json" = Some (js "[]").
Proof. vm_compute. repeat split; reflexivity. Qed.

(** ** Lexing what [JSON.stringify] wrote *)

Section Lexing.

Lemma lexesTo_nil : lexesTo [] [].
Proof. intros rest r H. exact H. Qed.

Lemma lexesTo_app (p1 p2 : jsstring) (t1 t2 : list token) :
  lexesTo p1 t1 -> lexesTo p2 t2 -> lexesTo (p1 ++ p2) (t1 ++ t2).
Proof.
  intros H1 H2 rest r H. rewrite <- !app_assoc. apply H1, H2, H.
Qed.

Lemma lexesTo_whiteSpace (ws : jsstring) :
  Forall (fun c => isJsonWhiteSpace c = true) ws -> lexesTo ws [].
Proof.
  induction 1 as [|c ws Hc _ IH]; intros rest r H; cbn [app lex].
  - exact H.
  - rewrite Hc. now apply IH.
Qed.

Lemma hexValue_hexDigit (d : N) : (d < 16)%N -> hexValue (hexDigit d) = Some d.
Proof.
  intros Hd. unfold hexValue, hexDigit.
  destruct (N.ltb_spec d 10).
  - replace ((48 <=? 48 + d) && (48 + d <=? 57))%N with true; [f_equal; lia|].
    symmetry. apply andb_true_iff. split; apply N.leb_le; lia.
  - replace ((48 <=? 87 + d) && (87 + d <=? 57))%N with false.
    + replace ((97 <=? 87 + d) && (87 + d <=? 102))%N with true; [f_equal; lia|].
      symmetry. apply andb_true_iff. split; apply N.leb_le; lia.
    + symmetry. apply andb_false_iff. right. apply N.leb_gt. lia.
Qed.

Lemma hex_digits_value (c : N) :
  (c < 65536)%N ->
  ((((0 * 16 + c / 4096 mod 16) * 16 + c / 256 mod 16) * 16 + c / 16 mod 16) * 16
   + c mod 16 = c)%N.
Proof.
  intros Hc.
  pose proof (N.div_mod c 16 ltac:(lia)) as H0.
  pose proof (N.div_mod (c / 16) 16 ltac:(lia)) as H1.
  pose proof (N.div_mod (c / 16 / 16) 16 ltac:(lia)) as H2.
  pose proof (N.Div0.div_div c 16 16) as E1.
  pose proof (N.Div0.div_div c 256 16) as E2.
  change (16 * 16)%N with 256%N in E1. change (256 * 16)%N with 4096%N in E2.
  rewrite E1 in *. rewrite E2 in *.
  assert (c / 4096 < 16)%N by (apply N.Div0.div_lt_upper_bound; lia).
  rewrite (N.mod_small (c / 4096) 16) by assumption.
  pose proof (N.div_mod (c / 256) 16 ltac:(lia)) as H3. rewrite E2 in H3.
  lia.
Qed.

Lemma lex_unicodeEscape (c : N) (acc rest : jsstring) :
  (c < 65536)%N ->
  lex (InString acc) (unicodeEscape c ++ rest) = lex (InString (c :: acc)) rest.
Proof.
  intros Hc. unfold unicodeEscape. cbn [app lex].
  change (92 =? 34)%N with false. change (92 =? 92)%N with true.
  change (117 =? 117)%N with true. cbn beta iota.
  rewrite !hexValue_hexDigit by (apply N.mod_lt; lia). cbn beta iota zeta.
  now rewrite hex_digits_value.
Qed.

Lemma lex_raw (c : N) (acc rest : jsstring) :
  (c =? 0x22)%N = false -> (c =? 0x5C)%N = false -> (c <? 0x20)%N = false ->
  lex (InString acc) (c :: rest) = lex (InString (c :: acc)) rest.
Proof. intros H1 H2 H3. cbn [lex]. now rewrite H1, H2, H3. Qed.

Lemma lex_quoteUnit (c : N) (acc rest : jsstring) :
  (c < 65536)%N ->
  lex (InString acc) (quoteUnit c ++ rest) = lex (InString (c :: acc)) rest.
Proof.
  intros Hc. unfold quoteUnit.
  destruct (N.eqb_spec c 8) as [->|H1]; [reflexivity|].
  destruct (N.eqb_spec c 9) as [->|H2]; [reflexivity|].
  destruct (N.eqb_spec c 10) as [->|H3]; [reflexivity|].
  destruct (N.eqb_spec c 12) as [->|H4]; [reflexivity|].
  destruct (N.eqb_spec c 13) as [->|H5]; [reflexivity|].
  destruct (N.eqb_spec c 34) as [->|H6]; [reflexivity|].
  destruct (N.eqb_spec c 92) as [->|H7]; [reflexivity|].
  destruct ((c <? 32)%N || isLeadingSurrogate c || isTrailingSurrogate c) eqn:E.
  - now apply lex_unicodeEscape.
  - apply orb_false_iff in E as [E _]. apply orb_false_iff in E as [E _].
    cbn [app]. apply lex_raw; [now apply N.eqb_neq | now apply N.eqb_neq | exact E].
Qed.

Lemma lex_surrogate (c : N) (acc rest : jsstring) :
  isLeadingSurrogate c || isTrailingSurrogate c = true ->
  lex (InString acc) (c :: rest) = lex (InString (c :: acc)) rest.
Proof.
  intros H. apply lex_raw.
  - apply N.eqb_neq. intros ->. discriminate H.
  - apply N.eqb_neq. intros ->. discriminate H.
  - apply N.ltb_ge. unfold isLeadingSurrogate, isTrailingSurrogate in H.
    apply orb_true_iff in H as [H|H]; apply andb_true_iff in H as [H _];
      apply N.leb_le in H; lia.
Qed.

Lemma quoteBody_two (c d : N) (s : jsstring) :
  quoteBody (c :: d :: s) =
  if isLeadingSurrogate c && isTrailingSurrogate d
  then c :: d :: quoteBody s
  else quoteUnit c ++ quoteBody (d :: s).
Proof. reflexivity. Qed.

Lemma lex_quoteBody_bounded (n : nat) (s acc rest : jsstring) :
  (List.length s <= n)%nat -> validString s ->
  lex (InString acc) (quoteBody s ++ rest) = lex (InString (rev s ++ acc)) rest.
Proof.
  revert s acc. induction n as [|n IH]; intros s acc Hn Hs.
  - destruct s; [reflexivity | cbn in Hn; lia].
  - destruct s as [|c [|d s'']]; [reflexivity| |].
    + apply Forall_cons in Hs as [Hc _]. cbn [quoteBody rev app].
      now apply lex_quoteUnit.
    + apply Forall_cons in Hs as [Hc Hs]. rewrite quoteBody_two.
      destruct (isLeadingSurrogate c && isTrailingSurrogate d) eqn:E.
      * apply andb_true_iff in E as [Ec Ed]. apply Forall_cons in Hs as [_ Hs].
        cbn [app]. rewrite lex_surrogate by (rewrite Ec; reflexivity).
        rewrite lex_surrogate by (rewrite Ed; apply orb_true_r).
        rewrite IH by (auto; cbn in Hn; lia).
        cbn [rev]. now rewrite <- !app_assoc.
      * rewrite <- app_assoc, lex_quoteUnit by exact Hc.
        rewrite IH by (auto; cbn in Hn |- *; lia).
        cbn [rev]. now rewrite <- !app_assoc.
Qed.

Lemma lexesTo_string (s : jsstring) :
  validString s -> lexesTo (quoteJSONString s) [TString s].
Proof.
  intros Hs rest r H. unfold quoteJSONString. cbn [app lex].
  change (isJsonWhiteSpace 34) with false. change (34 =? 34)%N with true.
  cbn beta iota. rewrite <- app_assoc.
  rewrite (lex_quoteBody_bounded (List.length s)) by auto.
  cbn [app lex]. change (34 =? 34)%N with true. cbn beta iota.
  rewrite H, app_nil_r, rev_involutive. reflexivity.
Qed.

End Lexing.

Section LexingRecords.

Lemma commaSeparated_cons (x : list token) (l : list (list token)) :
  commaSeparated (x :: l) = x ++ flat_map (fun y => TComma :: y) l.
Proof.
  revert x. induction l as [|y l IH]; intros x; cbn [commaSeparated flat_map].
  - now rewrite app_nil_r.
  - cbn [commaSeparated] in IH. now rewrite IH.
Qed.

Lemma lexesTo_join (sep : jsstring) (pieces : list jsstring) (toks : list (list token)) :
  lexesTo sep [TComma] -> Forall2 lexesTo pieces toks ->
  lexesTo (join sep pieces) (commaSeparated toks).
Proof.
  intros Hsep H. induction H as [|p t pieces toks Hp Hrest IH].
  - apply lexesTo_nil.
  - destruct Hrest as [|p' t' pieces toks Hp' Hrest]; [exact Hp|].
    change (join sep (p :: p' :: pieces)) with (p ++ sep ++ join sep (p' :: pieces)).
    change (commaSeparated (t :: t' :: toks))
      with (t ++ [TComma] ++ commaSeparated (t' :: toks)).
    apply lexesTo_app; [exact Hp|]. apply lexesTo_app; [exact Hsep | exact IH].
Qed.

Lemma lexesTo_literal (c : N) (t : token) :
  isJsonWhiteSpace c = false -> (c =? 0x22)%N = false -> punctuation c = Some t ->
  lexesTo [c] [t].
Proof.
  intros H1 H2 H3 rest r H. cbn [app lex]. now rewrite H1, H2, H3, H.
Qed.

Lemma whiteSpaceOnly_app (a b : jsstring) :
  whiteSpaceOnly a -> whiteSpaceOnly b -> whiteSpaceOnly (a ++ b).
Proof. apply Forall_app_2. Qed.

Lemma lexesTo_separator (indent : jsstring) :
  whiteSpaceOnly indent -> lexesTo (js "," ++ lineFeed ++ indent) [TComma].
Proof.
  intros Hi. apply (lexesTo_app _ _ [TComma] []).
  - now apply lexesTo_literal.
  - apply lexesTo_whiteSpace, whiteSpaceOnly_app; [|exact Hi].
    repeat constructor.
Qed.

(** A non-empty array or object laid out with a gap. *)
Lemma lexesTo_wrap (g : N) (gap stepback indent : jsstring) (o c : N) (to tc : token)
    (partial : list jsstring) (toks : list (list token)) :
  whiteSpaceOnly stepback -> whiteSpaceOnly indent ->
  lexesTo [o] [to] -> lexesTo [c] [tc] ->
  Forall2 lexesTo partial toks ->
  lexesTo (wrap (g :: gap) stepback indent [o] [c] partial)
          (to :: commaSeparated toks ++ [tc]).
Proof.
  intros Hs Hi Ho Hc Hp. unfold wrap.
  apply (lexesTo_app _ _ [to] (commaSeparated toks ++ [tc])); [exact Ho|].
  apply (lexesTo_app _ _ [] (commaSeparated toks ++ [tc]));
    [apply lexesTo_whiteSpace; repeat constructor|].
  apply (lexesTo_app _ _ [] (commaSeparated toks ++ [tc]));
    [now apply lexesTo_whiteSpace|].
  apply lexesTo_app; [apply lexesTo_join; [now apply lexesTo_separator | exact Hp]|].
  apply (lexesTo_app _ _ [] [tc]); [apply lexesTo_whiteSpace; repeat constructor|].
  apply (lexesTo_app _ _ [] [tc]); [now apply lexesTo_whiteSpace | exact Hc].
Qed.

Lemma lexesTo_strings (g : N) (gap indent : jsstring) (l : list jsstring) :
  whiteSpaceOnly (g :: gap) -> whiteSpaceOnly indent -> Forall validString l ->
  lexesTo (serializeJSON (g :: gap) indent (JArray (List.map JString l)))
          (TLBracket :: commaSeparated (List.map (fun s => [TString s]) l) ++ [TRBracket]).
Proof.
  intros Hg Hi Hl. cbn [serializeJSON]. rewrite List.map_map. cbn [serializeJSON].
  destruct l as [|s l]; [|].
  - cbn [List.map]. apply (lexesTo_app [0x5B%N] [0x5D%N] [TLBracket] [TRBracket]);
      now apply lexesTo_literal.
  - change (List.map (fun x => quoteJSONString x) (s :: l))
      with (quoteJSONString s :: List.map quoteJSONString l).
    cbn iota.
    change (js "[") with [0x5B%N]. change (js "]") with [0x5D%N].
    apply lexesTo_wrap; try (now apply lexesTo_literal); try exact Hi.
    + now apply whiteSpaceOnly_app.
    + change (quoteJSONString s :: List.map quoteJSONString l)
        with (List.map quoteJSONString (s :: l)).
      apply Forall2_fmap, Forall_Forall2_diag.
      eapply Forall_impl; [exact Hl|]. intros x Hx. now apply lexesTo_string.
Qed.

End LexingRecords.

Section LexingItems.

Lemma lexesTo_member (key : string) (value : jsstring) :
  validString (js key) -> validString value ->
  lexesTo (quoteJSONString (js key) ++ js ":" ++ js " " ++ quoteJSONString value)
          (memberTokens key value).
Proof.
  intros Hk Hv. unfold memberTokens.
  apply (lexesTo_app _ _ [TString (js key)] [TColon; TString value]);
    [now apply lexesTo_string|].
  apply (lexesTo_app _ _ [TColon] [TString value]); [now apply lexesTo_literal|].
  apply (lexesTo_app _ _ [] [TString value]);
    [apply lexesTo_whiteSpace; repeat constructor | now apply lexesTo_string].
Qed.

Lemma validString_literal (s : string) : validString (js s).
Proof.
  unfold validString, js.
  induction (list_ascii_of_string s) as [|a l IH]; cbn [List.map]; constructor;
    [|exact IH].
  pose proof (N_ascii_bounded a). lia.
Qed.

Lemma lexesTo_item (g : N) (gap indent : jsstring) (r : NewsItem) :
  whiteSpaceOnly (g :: gap) -> whiteSpaceOnly indent -> validItem r ->
  lexesTo (serializeJSON (g :: gap) indent (newsItemValue r)) (itemTokens r).
Proof.
  intros Hg Hi (Hd & Ht & Hx & Hl & Htags).
  assert (Hi' : whiteSpaceOnly (indent ++ g :: gap)) by now apply whiteSpaceOnly_app.
  pose proof (lexesTo_strings g gap (indent ++ g :: gap) (tags r) Hg Hi' Htags) as HT.
  assert (Htagsmember :
    lexesTo (quoteJSONString (js "tags") ++ js ":" ++ js " "
             ++ serializeJSON (g :: gap) (indent ++ g :: gap)
                  (JArray (List.map JString (tags r))))
            ([TString (js "tags"); TColon; TLBracket]
             ++ commaSeparated (List.map (fun s => [TString s]) (tags r))
             ++ [TRBracket])).
  { apply (lexesTo_app _ _ [TString (js "tags")]
             (TColon :: TLBracket
              :: commaSeparated (List.map (fun s => [TString s]) (tags r)) ++ [TRBracket]));
      [apply lexesTo_string, validString_literal|].
    apply (lexesTo_app _ _ [TColon]
             (TLBracket
              :: commaSeparated (List.map (fun s => [TString s]) (tags r)) ++ [TRBracket]));
      [now apply lexesTo_literal|].
    apply (lexesTo_app _ _ []
             (TLBracket
              :: commaSeparated (List.map (fun s => [TString s]) (tags r)) ++ [TRBracket]));
      [apply lexesTo_whiteSpace; repeat constructor | exact HT]. }
  unfold newsItemValue, itemTokens.
  destruct r as [d t x [l|] tg]; cbn [date time title link tags] in *.
  all: cbn [serializeJSON List.map app fst snd].
  all: change (js "{") with [0x7B%N]; change (js "}") with [0x7D%N].
  all: apply lexesTo_wrap.
  all: try (now apply lexesTo_literal).
  all: try assumption.
  all: repeat lazymatch goal with
    | |- Forall2 _ (_ :: _) (_ :: _) => constructor
    end.
  all: lazymatch goal with
    | |- Forall2 _ [] [] => constructor
    | |- lexesTo _ (memberTokens _ _) =>
        apply lexesTo_member; [apply validString_literal | auto]
    | |- lexesTo _ _ => exact Htagsmember
    end.
Qed.

Lemma lexesTo_items (data : list NewsItem) :
  Forall validItem data ->
  lexesTo (stringify (newsItemsValue data) 2) (itemsTokens data).
Proof.
  intros Hdata. unfold stringify, newsItemsValue, itemsTokens.
  change (repeat 32%N (Nat.min 2 10)) with [32; 32]%N.
  cbn [serializeJSON]. rewrite !List.map_map.
  destruct data as [|r data].
  - cbn [List.map commaSeparated app].
    apply (lexesTo_app [0x5B%N] [0x5D%N] [TLBracket] [TRBracket]);
      now apply lexesTo_literal.
  - change (List.map (fun x => serializeJSON [32; 32]%N ([] ++ [32; 32]%N) (newsItemValue x))
              (r :: data))
      with (serializeJSON [32; 32]%N [32; 32]%N (newsItemValue r)
            :: List.map (fun x => serializeJSON [32; 32]%N [32; 32]%N (newsItemValue x)) data).
    cbn iota. change (js "[") with [0x5B%N]. change (js "]") with [0x5D%N].
    apply lexesTo_wrap; try (now apply lexesTo_literal);
      try (repeat constructor; fail).
    change (serializeJSON [32; 32]%N [32; 32]%N (newsItemValue r)
            :: List.map (fun x => serializeJSON [32; 32]%N [32; 32]%N (newsItemValue x)) data)
      with (List.map (fun x => serializeJSON [32; 32]%N [32; 32]%N (newsItemValue x))
              (r :: data)).
    apply Forall2_fmap, Forall_Forall2_diag.
    eapply Forall_impl; [exact Hdata|]. intros x Hx.
    apply lexesTo_item; [repeat constructor | repeat constructor | exact Hx].
Qed.

End LexingItems.

(** ** Reading the tokens of a record list *)

Section Reading.

Lemma readMoreStrings_tokens (l : list jsstring) (rest : list token) :
  readMoreStrings (flat_map (fun y => TComma :: y) (List.map (fun s => [TString s]) l)
                   ++ TRBracket :: rest)
  = Some (l, rest).
Proof.
  induction l as [|s l IH]; [reflexivity|].
  cbn [List.map flat_map app readMoreStrings]. now rewrite IH.
Qed.

Lemma readStrings_tokens (l : list jsstring) (rest : list token) :
  readStrings (commaSeparated (List.map (fun s => [TString s]) l) ++ TRBracket :: rest)
  = Some (l, rest).
Proof.
  destruct l as [|s l]; [reflexivity|].
  cbn [List.map]. rewrite commaSeparated_cons. cbn [app readStrings].
  now rewrite readMoreStrings_tokens.
Qed.

Lemma readMember_hit (key value : jsstring) (rest : list token) :
  readMember key (TString key :: TColon :: TString value :: TComma :: rest)
  = Some (value, rest).
Proof. cbn [readMember]. now rewrite bool_decide_eq_true_2. Qed.

Lemma readItem_tokens (r : NewsItem) (rest : list token) :
  readItem (itemTokens r ++ rest) = Some (r, rest).
Proof.
  unfold itemTokens.
  destruct r as [d t x [l|] tg]; cbn [date time title link tags app];
    rewrite !commaSeparated_cons; cbn [flat_map app memberTokens];
    rewrite <- !app_assoc; cbn [app]; unfold readItem;
    repeat (rewrite readMember_hit; cbn [mbind option_bind]);
    cbn [readMember];
    rewrite (bool_decide_eq_true_2 (js "tags" = js "tags")) by reflexivity;
    rewrite readStrings_tokens; reflexivity.
Qed.

Lemma readMoreItems_tokens (rs : list NewsItem) (fuel : nat) :
  (List.length rs < fuel)%nat ->
  readMoreItems fuel (flat_map (fun y => TComma :: y) (List.map itemTokens rs)
                      ++ [TRBracket])
  = Some rs.
Proof.
  revert fuel. induction rs as [|r rs IH]; intros fuel Hf.
  - destruct fuel; [lia | reflexivity].
  - destruct fuel as [|fuel]; [lia|].
    cbn [List.map flat_map app readMoreItems]. rewrite <- app_assoc.
    rewrite readItem_tokens. cbn [mbind option_bind].
    rewrite IH by (cbn in Hf; lia). reflexivity.
Qed.

Lemma itemTokens_head (r : NewsItem) : exists ts, itemTokens r = TLBrace :: TString (js "date") :: ts.
Proof.
  unfold itemTokens. cbn [app]. rewrite commaSeparated_cons.
  cbn [memberTokens app]. eexists. reflexivity.
Qed.

Lemma flat_map_length_le (rs : list NewsItem) :
  (List.length rs <= List.length (flat_map (fun y => TComma :: y) (List.map itemTokens rs)))%nat.
Proof.
  induction rs as [|r rs IH]; [reflexivity|].
  cbn [List.map flat_map]. cbn [List.length app]. rewrite length_app. lia.
Qed.

Lemma readItems_tokens (data : list NewsItem) : readItems (itemsTokens data) = Some data.
Proof.
  unfold itemsTokens. destruct data as [|r rs]; [reflexivity|].
  cbn [List.map]. rewrite commaSeparated_cons, <- app_assoc.
  set (more := flat_map (fun y => TComma :: y) (List.map itemTokens rs) ++ [TRBracket]).
  transitivity ('(r0, ts0) ← readItem (itemTokens r ++ more);
                l ← readMoreItems (List.length ts0) ts0; Some (r0 :: l)).
  { destruct (itemTokens_head r) as [ts ->]. reflexivity. }
  rewrite readItem_tokens. cbn [mbind option_bind].
  unfold more. rewrite readMoreItems_tokens; [reflexivity|].
  rewrite length_app. cbn [List.length]. pose proof (flat_map_length_le rs). lia.
Qed.

(** The text written for a list of records reads back as that list. *)
Lemma readNewsItems_stringify (data : list NewsItem) :
  Forall validItem data ->
  readNewsItems (stringify (newsItemsValue data) 2) = Some data.
Proof.
  intros H. unfold readNewsItems.
  pose proof (lexesTo_items data H [] [] eq_refl) as Hlex.
  rewrite !app_nil_r in Hlex. rewrite Hlex. cbn [mbind option_bind].
  apply readItems_tokens.
Qed.

End Reading.

(** ** The layout of the text *)

Lemma serializeJSON_strings (indent : jsstring) (l : list jsstring) :
  serializeJSON (js "  ") indent (JArray (List.map JString l)) = layoutStrings indent l.
Proof.
  cbn [serializeJSON]. rewrite List.map_map. cbn [serializeJSON].
  destruct l as [|s l]; reflexivity.
Qed.

Lemma serializeJSON_item (indent : jsstring) (r : NewsItem) :
  serializeJSON (js "  ") indent (newsItemValue r) = layoutItem indent r.
Proof.
  pose proof (serializeJSON_strings (indent ++ js "  ") (tags r)) as Ht.
  unfold newsItemValue, layoutItem.
  destruct r as [d t x [l|] tg]; cbn [date time title link tags] in *;
    rewrite <- Ht; reflexivity.
Qed.

Lemma stringify_layout (data : list NewsItem) :
  stringify (newsItemsValue data) 2 = layoutItems data.
Proof.
  unfold stringify, newsItemsValue, layoutItems.
  change (repeat 32%N (Nat.min 2 10)) with (js "  ").
  cbn [serializeJSON]. rewrite List.map_map.
  rewrite (List.map_ext _ (layoutItem (js "  ")))
    by (intros r; apply serializeJSON_item).
  destruct data as [|r data]; reflexivity.
Qed.

Example readNewsItems_fixture :
  readNewsItems (stringify (newsItemsValue [Fixture.record1; Fixture.record3]) 2)
  = Some [Fixture.record1; Fixture.record3]
  /\ lex Out (stringify (newsItemsValue [Fixture.record1; Fixture.record3]) 2)
     = Some (itemsTokens [Fixture.record1; Fixture.record3]).
Proof. vm_compute. split; reflexivity. Qed.

Example readNewsItems_special :
  let r := {| date := [0x22; 0x5C; 0x0A; 0x01; 0xD800; 0x41F; 0xD83D; 0xDE00; 0x7F; 0x2F]%N;
              time := []; title := js "a, b"; link := None; tags := [[]; js "x"] |} in
  readNewsItems (stringify (newsItemsValue [r; r]) 2) = Some [r; r].
Proof. vm_compute. reflexivity. Qed.

Lemma saveToJSON_write_event (env : Env) (data : list NewsItem)
    (filename : jsstring) (w : World) :
  fst (saveToJSON env data filename w) = Normal tt ->
  EvWriteFile (Path.join2 outputDir filename) (stringify (newsItemsValue data) 2)
    ∈ trace (snd (saveToJSON env data filename w)).
Proof.
  destruct w as [b pg f t]. execute; intros H; try discriminate H; in_trace.
Qed.

(** C7: [saveToJSON] creates the output directory when it is missing and
    calls [writeFileSync] with the path [path.join('./output', filename)]
    (for a plain file name, the name below [output]) and the record list as
    JSON indented by two spaces: the text has the layout written out in
    [layoutItems], its string literals are escaped so that reading the text
    back gives exactly the records, and the empty list is the text of the
    empty array. The write leaves that text as the whole content of the
    file, whatever the file held before, so that a second call with the
    same file name replaces the text of the first, and it leaves every
    other file as it was; both are stated for paths other than the logger's
    own two files, to which the logger appends. [saveToJSON] succeeds
    whenever the directory creation (if needed) and the write succeed, and
    throws its own error otherwise. *)
Theorem saveToJSON_writes_indented_json
    (env : Env) (data : list NewsItem) (filename : jsstring) (w : World) :
  let filePath := Path.join2 outputDir filename in
  let text := stringify (newsItemsValue data) 2 in
  let w' := snd (saveToJSON env data filename w) in
  (fst (saveToJSON env data filename w) = Normal tt <->
     (existsSync outputDir (fs w) = true \/ mkdirSync_result env = None)
     /\ writeFileSync_result env = None)
  /\ (fst (saveToJSON env data filename w) = Normal tt
      \/ fst (saveToJSON env data filename w) = Throw saveFailed)
  /\ (fst (saveToJSON env data filename w) = Normal tt ->
        existsSync outputDir (fs w') = true
        /\ (existsSync outputDir (fs w) = false ->
              Path.normalize outputDir ∈ dirs (fs w'))
        /\ EvWriteFile filePath text ∈ trace w'
        /\ (Path.normalize filePath ∉ loggerFiles ->
              files (fs w') !! Path.normalize filePath = Some text)
        /\ (forall q : jsstring,
              q <> Path.normalize filePath -> q ∉ loggerFiles ->
              files (fs w') !! q = files (fs w) !! q)
        /\ writtenPaths (trace w') = writtenPaths (trace w) ++ [filePath]
        /\ (forall (env2 : Env) (data2 : list NewsItem),
              Path.normalize filePath ∉ loggerFiles ->
              fst (saveToJSON env2 data2 filename w') = Normal tt ->
              files (fs (snd (saveToJSON env2 data2 filename w')))
                !! Path.normalize filePath
              = Some (stringify (newsItemsValue data2) 2)))
  /\ (filename <> [] -> filename <> js "." -> filename <> js ".." ->
      0x2F%N ∉ filename -> filePath = js "output/" ++ filename)
  /\ stringify (newsItemsValue []) 2 = js "[]"
  /\ (forall (r : NewsItem) (rs : list NewsItem),
        stringify (newsItemsValue (r :: rs)) 2 =
        js "[" ++ lineFeed ++ js "  "
        ++ join (js "," ++ lineFeed ++ js "  ")
             (List.map (fun x => serializeJSON (js "  ") (js "  ") (newsItemValue x))
                       (r :: rs))
        ++ lineFeed ++ js "]")
  /\ text = layoutItems data
  /\ (Forall validItem data -> readNewsItems text = Some data)
  /\ (forall s : jsstring,
        validString s -> lex Out (quoteJSONString s) = Some [TString s])
  /\ quoteJSONString [0x22; 0x5C; 0x0A; 0x01; 0x41F; 0x2F]%N
     = [0x22; 0x5C; 0x22; 0x5C; 0x5C; 0x5C; 0x6E;
        0x5C; 0x75; 0x30; 0x30; 0x30; 0x31; 0x41F; 0x2F; 0x22]%N
  /\ stringify
       (newsItemsValue
          [{| date := js "1 May 2024"; time := js "10:15"; title := js "First";
              link := Some (js "https://mid.ru/1/"); tags := [js "Europe"] |};
           {| date := js "2 May 2024"; time := js ""; title := js "Second";
              link := None; tags := [] |}]) 2
     = join lineFeed
         [js "[";
          js "  {";
          js "    " ++ quoted "date" ++ js ": " ++ quoted "1 May 2024" ++ js ",";
          js "    " ++ quoted "time" ++ js ": " ++ quoted "10:15" ++ js ",";
          js "    " ++ quoted "title" ++ js ": " ++ quoted "First" ++ js ",";
          js "    " ++ quoted "link" ++ js ": " ++ quoted "https://mid.ru/1/" ++ js ",";
          js "    " ++ quoted "tags" ++ js ": [";
          js "      " ++ quoted "Europe";
          js "    ]";
          js "  },";
          js "  {";
          js "    " ++ quoted "date" ++ js ": " ++ quoted "2 May 2024" ++ js ",";
          js "    " ++ quoted "time" ++ js ": " ++ quoted "" ++ js ",";
          js "    " ++ quoted "title" ++ js ": " ++ quoted "Second" ++ js ",";
          js "    " ++ quoted "tags" ++ js ": []";
          js "  }";
          js "]"].
Proof.
  cbv zeta.
  split; [apply saveToJSON_success_iff|].
  split; [apply saveToJSON_completion|].
  split; [|split; [apply join2_outputDir_plain|]].
  - intros H.
    destruct (saveToJSON_directory env data filename w H) as [Hd Hn].
    split; [exact Hd|]. split; [exact Hn|].
    split; [now apply saveToJSON_write_event|].
    split; [intros _; now apply saveToJSON_file_content|].
    split; [intros q Hq _; now apply saveToJSON_other_files|].
    split; [now apply saveToJSON_writtenPaths|].
    intros env2 data2 _ H2. now apply saveToJSON_file_content.
  - split; [vm_compute; reflexivity|]. split.
    { intros r rs.
      rewrite <- (List.map_map newsItemValue (serializeJSON (js "  ") (js "  "))).
      reflexivity. }
    split; [apply stringify_layout|].
    split; [apply readNewsItems_stringify|].
    split.
    { intros s Hs. pose proof (lexesTo_string s Hs [] [] eq_refl) as H.
      now rewrite app_nil_r in H. }
    split; vm_compute; reflexivity.
Qed.

(** * Further properties *)

(** ** Trimmed fields *)

Section TrimFacts.

Lemma trimStart_no_leading (s : jsstring) :
  startsWithWhiteSpace (trimStart s) = false.
Proof.
  induction s as [|c s IH]; [reflexivity|]. cbn [trimStart].
  destruct (isWhiteSpace c) eqn:E; [exact IH | exact E].
Qed.

Lemma trimStart_snoc (l : jsstring) (c : N) :
  isWhiteSpace c = false -> trimStart (l ++ [c]) = trimStart l ++ [c].
Proof.
  intros Hc. induction l as [|a l IH]; cbn [app trimStart].
  - now rewrite Hc.
  - destruct (isWhiteSpace a); [exact IH | reflexivity].
Qed.

Lemma trimEnd_no_trailing (s : jsstring) : endsWithWhiteSpace (trimEnd s) = false.
Proof.
  unfold endsWithWhiteSpace, trimEnd. rewrite rev_involutive.
  apply trimStart_no_leading.
Qed.

Lemma trimEnd_keeps_start (s : jsstring) :
  startsWithWhiteSpace s = false -> startsWithWhiteSpace (trimEnd s) = false.
Proof.
  destruct s as [|c s]; [reflexivity|]. cbn [startsWithWhiteSpace]. intros Hc.
  unfold trimEnd. cbn [rev]. rewrite (trimStart_snoc _ _ Hc).
  rewrite rev_app_distr. cbn. exact Hc.
Qed.

Lemma trim_no_edge_whitespace (s : jsstring) :
  startsWithWhiteSpace (trim s) = false /\ endsWithWhiteSpace (trim s) = false.
Proof.
  unfold trim. split.
  - apply trimEnd_keeps_start, trimStart_no_leading.
  - apply trimEnd_no_trailing.
Qed.

Lemma strOr_trimmed (n : node) : strOr (trim <$> textContent n) [] = trim (textOf n).
Proof. unfold textContent. cbn. now destruct (trim (textOf n)). Qed.

End TrimFacts.

(** X1: the date, the time and the title of an emitted record are the
    trimmed texts of the date element, the time element and the link
    element: none of them begins or ends with white space. *)
Theorem record_fields_are_trimmed (item : node) (r : NewsItem) :
  recordOf item = Some r ->
  (exists dateElement timeElement linkElement,
      querySelector sel_date item = Some dateElement
      /\ querySelector sel_time item = Some timeElement
      /\ querySelector sel_link item = Some linkElement
      /\ date r = trim (textOf dateElement)
      /\ time r = trim (textOf timeElement)
      /\ title r = trim (textOf linkElement)
      /\ link r = hrefOf linkElement)
  /\ startsWithWhiteSpace (date r) = false /\ endsWithWhiteSpace (date r) = false
  /\ startsWithWhiteSpace (time r) = false /\ endsWithWhiteSpace (time r) = false
  /\ startsWithWhiteSpace (title r) = false /\ endsWithWhiteSpace (title r) = false.
Proof.
  unfold recordOf.
  destruct (querySelector sel_date item) as [d|]; [|discriminate].
  destruct (querySelector sel_time item) as [t|]; [|discriminate].
  destruct (querySelector sel_link item) as [l|]; [|discriminate].
  rewrite !strOr_trimmed. intros [= <-]. cbn [date time title link].
  split; [exists d, t, l; repeat split; reflexivity|].
  destruct (trim_no_edge_whitespace (textOf d)), (trim_no_edge_whitespace (textOf t)),
    (trim_no_edge_whitespace (textOf l)).
  repeat split; assumption.
Qed.

Lemma record_fields_are_trimmed_item1 :
  startsWithWhiteSpace (date Fixture.record1) = false
  /\ endsWithWhiteSpace (date Fixture.record1) = false.
Proof.
  pose proof (record_fields_are_trimmed Fixture.item1 Fixture.record1) as H.
  refine (let H' := H _ in conj (proj1 (proj2 H')) (proj1 (proj2 (proj2 H')))).
  vm_compute. reflexivity.
Defined.

(** ** The pieces of a split *)

Section SplitPieces.

Variable sep : jsstring.
Hypothesis sep_nonempty : sep <> [].

Lemma startsWith_app (v w : jsstring) :
  startsWith sep v = true -> startsWith sep (v ++ w) = true.
Proof using Type.
  clear sep_nonempty. revert v. induction sep as [|a sep' IH]; intros v H; [reflexivity|].
  destruct v as [|b v]; [discriminate|]. cbn in *.
  apply andb_true_iff in H as [Hab Hv]. rewrite Hab. cbn. now apply IH.
Qed.

Lemma startsWith_nil : startsWith sep [] = false.
Proof using sep_nonempty. destruct sep; [congruence | reflexivity]. Qed.

(** A text in which the separator starts at no position does not include
    it. *)
Lemma includes_false (p : jsstring) :
  (forall u v, p = u ++ v -> startsWith sep v = false) -> includes p sep = false.
Proof using Type.
  induction p as [|c p IH]; intros H; cbn [includes].
  - rewrite (H [] [] eq_refl). reflexivity.
  - rewrite (H [] (c :: p) eq_refl). cbn. apply IH.
    intros u v ->. apply (H (c :: u) v). reflexivity.
Qed.

Lemma noOccurrence_piece (cur s : jsstring) :
  noOccurrence sep cur s -> includes (rev cur) sep = false.
Proof using sep_nonempty.
  intros H. apply includes_false. intros u v E.
  destruct v as [|b v]; [apply startsWith_nil|].
  destruct (startsWith sep (b :: v)) eqn:Hv; [|reflexivity].
  rewrite <- (H u (b :: v) E ltac:(discriminate)).
  symmetry. now apply startsWith_app.
Qed.

Lemma noOccurrence_push (cur s : jsstring) (c : N) :
  noOccurrence sep cur (c :: s) -> startsWith sep (c :: s) = false ->
  noOccurrence sep (c :: cur) s.
Proof using Type.
  intros H Hc u v E Hv. cbn [rev] in E.
  destruct (exists_last Hv) as (v0 & a & ->).
  rewrite app_assoc in E. apply app_inj_tail in E as [E <-].
  destruct v0 as [|b v0]; [exact Hc|].
  rewrite <- app_assoc. cbn [app]. apply (H u (b :: v0) E). discriminate.
Qed.

Lemma splitScan_pieces (s cur : jsstring) (skip : nat) (p : jsstring) :
  (skip = 0%nat \/ cur = []) -> noOccurrence sep cur s ->
  p ∈ splitScan sep s cur skip -> includes p sep = false.
Proof using sep_nonempty.
  revert cur skip. induction s as [|c s IH]; intros cur skip Hk Hcur Hp;
    cbn [splitScan] in Hp.
  - apply list_elem_of_singleton in Hp as ->. now apply (noOccurrence_piece cur []).
  - destruct skip as [|k].
    + destruct (startsWith sep (c :: s)) eqn:E.
      * apply elem_of_cons in Hp as [->|Hp].
        -- now apply (noOccurrence_piece cur (c :: s)).
        -- eapply (IH []); [now right| |exact Hp].
           intros u v Huv Hv. destruct u, v; try discriminate. congruence.
      * apply (IH (c :: cur) 0%nat (or_introl eq_refl)); [|exact Hp].
        now apply noOccurrence_push.
    + destruct Hk as [Hk| ->]; [discriminate|].
      apply (IH [] k (or_intror eq_refl)); [|exact Hp].
      intros u v Huv Hv. destruct u, v; try discriminate. congruence.
Qed.

End SplitPieces.

Lemma split_pieces (sep s p : jsstring) :
  sep <> [] -> p ∈ split s sep -> includes p sep = false.
Proof.
  intros Hsep. unfold split. destruct sep as [|a sep']; [congruence|].
  apply (splitScan_pieces (a :: sep') Hsep); [now left|].
  intros u v Huv Hv. destruct u, v; try discriminate. congruence.
Qed.

Lemma parseTags_split (tagsElement : node) :
  parseTags tagsElement = split (trim (textOf tagsElement)) (js ", ").
Proof. reflexivity. Qed.

(** X2: no tag of an emitted record contains the separator [", "]: the
    tags element's text is cut at every occurrence of it. *)
Theorem tags_do_not_contain_the_separator (item : node) (r : NewsItem) (tag : jsstring) :
  recordOf item = Some r -> tag ∈ tags r -> includes tag (js ", ") = false.
Proof.
  unfold recordOf.
  destruct (querySelector sel_date item); [|discriminate].
  destruct (querySelector sel_time item); [|discriminate].
  destruct (querySelector sel_link item); [|discriminate].
  destruct (querySelector sel_tags item) as [te|]; intros [= <-]; cbn [tags].
  - rewrite parseTags_split. apply split_pieces. discriminate.
  - intros H. now apply elem_of_nil in H.
Qed.

Lemma tags_do_not_contain_the_separator_item1 :
  includes (js "Europe") (js ", ") = false.
Proof.
  apply (tags_do_not_contain_the_separator Fixture.item1 Fixture.record1).
  - vm_compute. reflexivity.
  - cbn [tags Fixture.record1]. apply list_elem_of_further, list_elem_of_here.
Defined.

(** ** The two extraction callbacks *)

Section Descendants.






End Descendants.



(** ** [initialize] *)

Lemma initialize_fs (env : Env) (w : World) :
  fs (snd (initialize env w)) = fs w
  /\ writtenPaths (trace (snd (initialize env w))) = writtenPaths (trace w).
Proof.
  unfold writtenPaths. destruct w as [b pg f t].
  execute; (split; [reflexivity|]);
    rewrite !omap_app; cbn [omap list_omap app]; now rewrite ?app_nil_r.
Qed.

(** X4: [initialize] succeeds exactly when the launch, the opening of the
    page and the two settings all succeed; otherwise it throws its own
    error, whatever the cause was. The browser is held from the moment the
    launch succeeded and the page from the moment it was opened, also when
    [initialize] then throws. [initialize] makes no call to the file system:
    no write is attempted, no directory appears, and every file other than
    the logger's own two is as before. *)
Theorem initialize_outcome (env : Env) (w : World) :
  (fst (initialize env w) = Normal tt <->
     launch_result env = None /\ newPage_result env = None
     /\ setUserAgent_result env = None /\ setExtraHTTPHeaders_result env = None)
  /\ (fst (initialize env w) = Normal tt
      \/ fst (initialize env w) = Throw initializationFailed)
  /\ browser (snd (initialize env w))
     = match launch_result env with
       | None => Some BrowserHandle
       | Some _ => browser w
       end
  /\ page (snd (initialize env w))
     = match launch_result env, newPage_result env with
       | None, None => Some PageHandle
       | _, _ => page w
       end
  /\ writtenPaths (trace (snd (initialize env w))) = writtenPaths (trace w)
  /\ dirs (fs (snd (initialize env w))) = dirs (fs w)
  /\ (forall q : jsstring,
        q ∉ loggerFiles ->
        files (fs (snd (initialize env w))) !! q = files (fs w) !! q).
Proof.
  destruct (initialize_fs env w) as [Hfs Hw].
  split; [|split; [|split; [|split; [|split; [exact Hw|]]]]].
  5: { rewrite Hfs. split; [reflexivity|]. intros q _. reflexivity. }
  all: clear Hfs Hw; destruct w as [b pg f t]; execute; repeat split; intros; auto;
    try congruence; try (intuition congruence).
Qed.


(** X5: whenever [initialize], [getContent] (with the page present) or
    [saveToJSON] throws, the last thing it did was to log a line at error
    level that names the failed step. *)
Theorem failures_are_logged_before_they_are_thrown (env : Env) (w : World) :
  (forall e, fst (initialize env w) = Throw e ->
     endsWithErrorLog (js "Failed to initialize browser:")
       (trace (snd (initialize env w))))
  /\ (forall n e, page w <> None -> fst (getContent env n w) = Throw e ->
        endsWithErrorLog
          (js "Error fetching content from page " ++ numberToString n ++ js ":")
          (trace (snd (getContent env n w))))
  /\ (forall data filename e,
        fst (saveToJSON env data filename w) = Throw e ->
        endsWithErrorLog (js "Error saving data to JSON:")
          (trace (snd (saveToJSON env data filename w)))).
Proof.
  unfold endsWithErrorLog. destruct w as [b pg f t]. split; [|split].
  - intros e. execute; intros H; try discriminate H; eexists; reflexivity.
  - intros n e Hp. destruct pg as [pg|]; [clear Hp|done].
    execute; intros H; try discriminate H; eexists; reflexivity.
  - intros data filename e.
    execute; intros H; try discriminate H; eexists; reflexivity.
Qed.

(** ** [getContent] *)

(** X6: [getContent] makes no call to the file system and does not touch
    the fields of the fetcher: the browser and page fields are as before, no
    file write is attempted, no directory appears, and every file other
    than the logger's own two is as before. *)
Theorem getContent_touches_only_the_trace (env : Env) (n : Z) (w : World) :
  browser (snd (getContent env n w)) = browser w
  /\ page (snd (getContent env n w)) = page w
  /\ writtenPaths (trace (snd (getContent env n w))) = writtenPaths (trace w)
  /\ dirs (fs (snd (getContent env n w))) = dirs (fs w)
  /\ (forall q : jsstring,
        q ∉ loggerFiles ->
        files (fs (snd (getContent env n w))) !! q = files (fs w) !! q).
Proof.
  split; [apply getContent_frame|]. split; [apply getContent_frame|].
  assert (Hfs : fs (snd (getContent env n w)) = fs w) by apply getContent_frame.
  rewrite Hfs. split; [|split; [reflexivity | intros q _; reflexivity]].
  clear Hfs. unfold writtenPaths. destruct w as [b [pg|] f t]; [|reflexivity].
  execute; rewrite !omap_app; cbn [omap list_omap app]; now rewrite ?app_nil_r.
Qed.


(** X7: [getContent] waits for a navigation exactly when the navigation to
    the listing and the reading of the page text succeeded and the text
    includes the anti-bot marker. *)
Theorem navigation_wait_iff_marker (env : Env) (n : Z) (w : World) :
  page w <> None ->
  waitedForNavigation (trace w) = false ->
  (waitedForNavigation (trace (snd (getContent env n w))) = true <->
     goto_result env (listingUrl n) = None
     /\ exists text, content_result env = inr text
                     /\ includes text antiBotMarker = true).
Proof.
  intros Hp Ht. destruct w as [b [pg|] f t]; [clear Hp|done]. cbn [trace] in Ht.
  unfold waitedForNavigation in *.
  execute; rewrite ?existsb_app, Ht; cbn [existsb orb]; split;
    try discriminate; try (intros [? (? & ? & ?)]; congruence);
    try (intros _; split; [reflexivity|eexists; split; [reflexivity|assumption]]).
Qed.

Lemma navigation_wait_iff_marker_timeouts :
  waitedForNavigation
    (trace (snd (getContent Scenario.bothWaitsTimeOut 1 Scenario.initialized))) = true.
Proof.
  apply (navigation_wait_iff_marker Scenario.bothWaitsTimeOut 1 Scenario.initialized).
  - discriminate.
  - reflexivity.
  - split; [reflexivity|]. eexists. split; [reflexivity|]. vm_compute. reflexivity.
Defined.

(** ** The whole run, continued *)

Lemma newsFeedPath :
  Path.normalize (Path.join2 outputDir (js "news_feed.json")) = js "output/news_feed.json"
  /\ Path.join2 outputDir (js "news_feed.json") = js "output/news_feed.json".
Proof. split; vm_compute; reflexivity. Qed.

(** X8: a run launches the browser once and, on every path on which the
    launch succeeded, closes it exactly once; when the launch failed there
    is nothing to close and nothing is closed. *)
Theorem run_closes_the_browser_once (env : Env) (fs0 : FileSystem) :
  launches (trace (snd (run env fs0))) = 1%nat
  /\ browserCloses (trace (snd (run env fs0)))
     = match launch_result env with
       | None => 1%nat
       | Some _ => 0%nat
       end.
Proof.
  unfold run, newFetcher, launches, browserCloses.
  execute; split; reflexivity.
Qed.

(** X9: apart from the logger's own two files, a run changes no file other
    than [output/news_feed.json]. *)
Theorem run_changes_only_the_news_feed_file
    (env : Env) (fs0 : FileSystem) (q : jsstring) :
  q <> js "output/news_feed.json" -> q ∉ loggerFiles ->
  files (fs (snd (run env fs0))) !! q = files fs0 !! q.
Proof.
  intros Hq _. destruct newsFeedPath as [Hn _].
  unfold run, newFetcher.
  execute; try reflexivity;
    rewrite files_writeFile_other by (rewrite Hn; exact Hq); reflexivity.
Qed.

Lemma run_changes_only_the_news_feed_file_fine :
  files (fs (snd (run Scenario.fine Scenario.emptyFs))) !! js "output/old.json"
  = files Scenario.emptyFs !! js "output/old.json".
Proof.
  apply (run_changes_only_the_news_feed_file Scenario.fine Scenario.emptyFs).
  - discriminate.
  - unfold loggerFiles. intros H.
    repeat (apply elem_of_cons in H as [H|H]; [discriminate H|]).
    now apply elem_of_nil in H.
Defined.

(** X10: a run attempts to write the output file only after initialization
    and the fetch have succeeded (and the output directory is there or could
    be created); when one of them failed, nothing is written, not even an
    empty list. *)
Theorem run_writes_only_after_a_successful_fetch (env : Env) (fs0 : FileSystem) :
  writtenPaths (trace (snd (run env fs0)))
  = match fst (initialize env (newFetcher fs0)),
          fst (getContent env 1 (snd (initialize env (newFetcher fs0)))) with
    | Normal _, Normal _ =>
        if existsSync outputDir fs0 then [js "output/news_feed.json"]
        else match mkdirSync_result env with
             | None => [js "output/news_feed.json"]
             | Some _ => []
             end
    | _, _ => []
    end.
Proof.
  destruct newsFeedPath as [_ Hj].
  unfold run, newFetcher, writtenPaths.
  execute; rewrite ?negb_true_iff, ?negb_false_iff in *;
    try discriminate;
    repeat match goal with H : existsSync _ _ = _ |- _ => rewrite H end;
    rewrite ?Hj; reflexivity.
Qed.

(** X11: when every call of the environment succeeds, the run ends with
    status 0 after one navigation, to the bare listing URL, and the output
    file holds the JSON text of exactly the records extracted from the
    document the page showed: the text in the two-space layout, which reads
    back as those records (a record whose link element is not an anchor has
    no link, and no link line in the file). *)
Theorem successful_run_saves_the_extracted_records
    (env : Env) (fs0 : FileSystem) (text : jsstring) (document : node) :
  allSucceed env text document ->
  Forall validItem (extractNews document) ->
  fst (run env fs0) = Normal tt
  /\ exitStatus (fst (run env fs0)) = 0
  /\ gotoUrls (trace (snd (run env fs0))) = [baseUrl]
  /\ files (fs (snd (run env fs0))) !! js "output/news_feed.json"
     = Some (layoutItems (extractNews document))
  /\ (exists content,
        files (fs (snd (run env fs0))) !! js "output/news_feed.json" = Some content
        /\ readNewsItems content = Some (extractNews document))
  /\ existsSync outputDir (fs (snd (run env fs0))) = true.
Proof.
  intros (H1 & H2 & H3 & H4 & H5 & H6 & H7 & H8 & H9 & H10) Hvalid.
  destruct newsFeedPath as [Hn _].
  pose proof (readNewsItems_stringify _ Hvalid) as Hread.
  rewrite <- stringify_layout.
  unfold run, newFetcher, gotoUrls, allSucceed in *.
  unfold_ops. rewrite H1, H2, H3, H4. reduce_world.
  rewrite H5. reduce_world.
  destruct (waitForSelector_result env); reduce_world; rewrite H6; reduce_world;
    destruct (includes text antiBotMarker); reduce_world;
    try (destruct (waitForNavigation_result env); reduce_world);
    rewrite H7; reduce_world;
    destruct (existsSync outputDir fs0) eqn:Hex; cbn [negb]; reduce_world;
    rewrite ?H9, H10; reduce_world; rewrite H8; reduce_world;
    (split; [reflexivity|]); (split; [reflexivity|]);
    (split; [reflexivity|]);
    (split; [rewrite <- Hn; apply files_writeFile|]);
    (split; [eexists; split; [rewrite <- Hn; apply files_writeFile | exact Hread]|]);
    apply existsSync_writeFile;
    first [exact Hex | apply existsSync_mkdirRecursive].
Qed.

Lemma successful_run_saves_the_extracted_records_fine :
  files (fs (snd (run Scenario.fine Scenario.emptyFs))) !! js "output/news_feed.json"
  = Some (layoutItems [Fixture.record1; Fixture.record3]).
Proof.
  refine (proj1 (proj2 (proj2 (proj2
    (successful_run_saves_the_extracted_records Scenario.fine Scenario.emptyFs
       (js "<html><body>news</body></html>") Fixture.page _ _))))).
  - unfold allSucceed. repeat split; reflexivity.
  - change (extractNews Fixture.page) with [Fixture.record1; Fixture.record3].
    repeat constructor; try (intros l [= <-]); apply validString_literal.
Defined.

(** ** [saveToJSON], continued *)

(** X12: when the output directory is missing and cannot be created,
    [saveToJSON] throws its own error without calling [writeFileSync]: the
    creation of the directory was attempted, no write is, and every file
    other than the logger's own two is as before. *)
Theorem failed_save_changes_no_file
    (env : Env) (data : list NewsItem) (filename : jsstring) (w : World) (e : exn) :
  existsSync outputDir (fs w) = false ->
  mkdirSync_result env = Some e ->
  fst (saveToJSON env data filename w) = Throw saveFailed
  /\ writtenPaths (trace (snd (saveToJSON env data filename w)))
     = writtenPaths (trace w)
  /\ EvMkdir outputDir ∈ trace (snd (saveToJSON env data filename w))
  /\ (forall q : jsstring,
        q ∉ loggerFiles ->
        files (fs (snd (saveToJSON env data filename w))) !! q = files (fs w) !! q).
Proof.
  intros Hex Hmk. unfold writtenPaths. destruct w as [b pg f t].
  cbn [fs] in Hex. unfold_ops. reduce_world. rewrite Hex, Hmk. cbn [negb].
  reduce_world. split; [reflexivity|]. split.
  { rewrite !omap_app. cbn [omap list_omap app]. now rewrite ?app_nil_r. }
  split; [in_trace|]. intros q _. reflexivity.
Qed.

Lemma failed_save_changes_no_file_refused :
  fst (saveToJSON mkdirRefused [Fixture.record1] (js "news_feed.json")
         Scenario.initialized)
  = Throw saveFailed.
Proof.
  refine (proj1
    (failed_save_changes_no_file mkdirRefused [Fixture.record1] (js "news_feed.json")
       Scenario.initialized (JsError (js "EACCES: permission denied")) _ _)).
  - vm_compute. reflexivity.
  - reflexivity.
Defined.

(** ** File names that leave the output directory *)








(** ** Which error [getContent] throws *)


(** ** [main] of [feed.ts] *)

(** X15: [main] of [feed.ts] catches every failure of its three steps and
    reports it on the console; it closes the browser exactly once when the
    launch succeeded and not at all otherwise; it rejects exactly when the
    browser was launched and closing it fails, with the error of the close;
    and it changes no file other than [output/news_feed.json]. *)
Theorem feed_main_outcome (env : Env) (fs0 : FileSystem) :
  (forall e, fst (FeedMain.main env (newFetcher fs0)) = Throw e <->
     launch_result env = None /\ browserClose_result env = Some e)
  /\ (fst (FeedMain.main env (newFetcher fs0)) = Normal tt <->
        ~ (launch_result env = None /\ browserClose_result env <> None))
  /\ (forall e w1, FeedMain.mainTry env (newFetcher fs0) = (Throw e, w1) ->
        EvConsole (js "An error occurred:")
          ∈ trace (snd (FeedMain.main env (newFetcher fs0))))
  /\ browserCloses (trace (snd (FeedMain.main env (newFetcher fs0))))
     = match launch_result env with
       | None => 1%nat
       | Some _ => 0%nat
       end
  /\ (forall q, q <> js "output/news_feed.json" ->
        files (fs (snd (FeedMain.main env (newFetcher fs0)))) !! q = files fs0 !! q).
Proof.
  assert (Hn : Path.normalize (Path.join2 outputDir (js "news_feed.json"))
               = js "output/news_feed.json") by (vm_compute; reflexivity).
  unfold newFetcher, browserCloses. execute_feed;
    (split; [intuition congruence|]); (split; [intuition congruence|]);
    (split; [intros ? ? H; first [discriminate H | in_trace]|]);
    (split; [reflexivity|]);
    intros q Hq; try reflexivity;
    rewrite files_writeFile_other by (rewrite Hn; exact Hq); reflexivity.
Qed.

(** ** The listing URL, continued *)

Lemma numberToString_inj (n m : Z) : numberToString n = numberToString m -> n = m.
Proof.
  intros H. apply (f_equal parseInteger) in H.
  rewrite !parseInteger_numberToString in H. congruence.
Qed.

(** X16: different page numbers have different listing URLs: for safe
    integers, two page numbers have the same URL exactly when they are
    equal. *)
Theorem listingUrl_injective (n m : Z) :
  isSafeInteger n -> isSafeInteger m ->
  (listingUrl n = listingUrl m <-> n = m).
Proof.
  intros _ _. split; [|now intros ->].
  unfold listingUrl. rewrite pagedUrlPrefix_eq.
  destruct (Z.eqb_spec n 1) as [->|Hn], (Z.eqb_spec m 1) as [->|Hm]; intros H.
  - reflexivity.
  - apply (f_equal (@List.length N)) in H. rewrite !length_app in H.
    cbn [js List.map list_ascii_of_string List.length] in H. lia.
  - apply (f_equal (@List.length N)) in H. rewrite !length_app in H.
    cbn [js List.map list_ascii_of_string List.length] in H. lia.
  - apply app_inv_head in H. now apply numberToString_inj.
Qed.

Lemma listingUrl_injective_2_3 : listingUrl 2 = listingUrl 3 <-> 2 = 3.
Proof.
  apply (listingUrl_injective 2 3); unfold isSafeInteger; simpl; lia.
Defined.


(** ** The guard of [getContent] after a failed [initialize] *)

Lemma initialize_gotoUrls (env : Env) (w : World) :
  gotoUrls (trace (snd (initialize env w))) = gotoUrls (trace w).
Proof.
  unfold gotoUrls. destruct w as [b pg f t].
  execute; rewrite !omap_app; cbn [omap list_omap app]; now rewrite ?app_nil_r.
Qed.

Lemma initialize_page (env : Env) (w : World) :
  launch_result env = None -> newPage_result env = None ->
  page (snd (initialize env w)) = Some PageHandle.
Proof.
  intros H1 H2. destruct w as [b pg f t]. unfold_ops. rewrite H1, H2.
  execute; reflexivity.
Qed.

(** X17: the guard of [getContent] tests the page, not the success of
    [initialize]. When the browser was launched and the page opened,
    [initialize] may still throw (a setting failed), and a [getContent]
    called after it does not throw the "not initialized" error: it
    navigates to the listing URL. *)
Theorem getContent_guard_passes_after_failed_initialize
    (env : Env) (n : Z) (w : World) (e : exn) :
  launch_result env = None -> newPage_result env = None ->
  setUserAgent_result env = Some e ->
  fst (initialize env w) = Throw initializationFailed
  /\ gotoUrls (trace (snd (getContent env n (snd (initialize env w)))))
     = gotoUrls (trace w) ++ [listingUrl n]
  /\ fst (getContent env n (snd (initialize env w))) = getContentOutcome env n.
Proof.
  intros H1 H2 H3.
  assert (Hp : page (snd (initialize env w)) <> None)
    by (rewrite initialize_page by assumption; discriminate).
  split; [|split].
  - destruct w as [b pg f t]. unfold_ops. now rewrite H1, H2, H3.
  - rewrite getContent_gotoUrls by exact Hp. now rewrite initialize_gotoUrls.
  - now apply getContent_completion.
Qed.

Lemma getContent_guard_passes_after_failed_initialize_fixture :
  fst (getContent userAgentFails 1
         (snd (initialize userAgentFails (newFetcher Scenario.emptyFs))))
  = Normal [Fixture.record1; Fixture.record3].
Proof.
  refine (proj2 (proj2
    (getContent_guard_passes_after_failed_initialize userAgentFails 1
       (newFetcher Scenario.emptyFs) Scenario.protocolError _ _ _))).
  - reflexivity.
  - reflexivity.
  - reflexivity.
Defined.
